(** * Milki-backend: structure routers and the WeeklyTask model

    A shallow embedding of
      - src/structure/routers/work/work.routes.js   (module [work_routes]),
      - the zone router                              (module [zone_routes]),
      - the group router                             (module [group_routes]),
      - src/structure/models/weeklyTask.js           (module [weeklyTask]),
    together with the part of Express routing and of Sequelize model
    creation these files rely on. *)

From Stdlib Require Import ZArith Ascii String List Bool Lia.
From stdpp Require Import base option list strings gmap fin_maps.

Local Open Scope string_scope.
Local Open Scope list_scope.

(** ** Strings and URL paths *)

Definition lower_ascii (c : ascii) : ascii :=
  let n := nat_of_ascii c in
  if (65 <=? n)%nat && (n <=? 90)%nat then ascii_of_nat (n + 32) else c.

Fixpoint lower (s : string) : string :=
  match s with
  | EmptyString => EmptyString
  | String c s' => String (lower_ascii c) (lower s')
  end.

(** Express routers are case-insensitive unless [caseSensitive] is set;
    none of the routers sets it. *)
Definition eq_nocase (a b : string) : bool :=
  bool_decide (lower a = lower b).

(** [split_slash "/a/b"] is [[""; "a"; "b"]]. *)
Fixpoint split_slash (s : string) : list string :=
  match s with
  | EmptyString => [EmptyString]
  | String c s' =>
      if Ascii.eqb c "/" then EmptyString :: split_slash s'
      else match split_slash s' with
           | seg :: rest => String c seg :: rest
           | [] => [String c EmptyString]
           end
  end.

(** Drops one trailing empty segment: routing is not strict, so a final
    slash is optional both in the pattern and in the request path. *)
Fixpoint drop_trailing_slash (segs : list string) : list string :=
  match segs with
  | [] => []
  | [seg] => if bool_decide (seg = "") then [] else [seg]
  | seg :: rest => seg :: drop_trailing_slash rest
  end.

(** The segments of an absolute path; [None] when the path does not start
    with a slash. *)
Definition segments (p : string) : option (list string) :=
  match split_slash p with
  | "" :: rest => Some (drop_trailing_slash rest)
  | _ => None
  end.

(** A compiled path pattern: literal segments and named parameters. *)
Inductive seg :=
  | Lit (s : string)
  | Param (name : string).

Definition compile_seg (s : string) : seg :=
  match s with
  | String ":" name => Param name
  | _ => Lit s
  end.

Definition compile_path (p : string) : list seg :=
  match segments p with
  | Some segs => map compile_seg segs
  | None => []
  end.

Definition params := list (string * string).

(** Matches request segments against a pattern, as the anchored regular
    expression Express builds from the route path does: a literal matches
    itself regardless of case, a parameter matches one non-empty segment. *)
Fixpoint match_segs (pat : list seg) (segs : list string) : option params :=
  match pat, segs with
  | [], [] => Some []
  | Lit l :: pat', s :: segs' =>
      if eq_nocase l s then match_segs pat' segs' else None
  | Param x :: pat', s :: segs' =>
      if bool_decide (s = "") then None
      else match match_segs pat' segs' with
           | Some ps => Some ((x, s) :: ps)
           | None => None
           end
  | _, _ => None
  end.

(** [strip_prefix pre segs]: what is left of [segs] after the mount path
    [pre], if [segs] starts with it. *)
Fixpoint strip_prefix (pre segs : list string) : option (list string) :=
  match pre, segs with
  | [], _ => Some segs
  | p :: pre', s :: segs' =>
      if eq_nocase p s then strip_prefix pre' segs' else None
  | _ :: _, [] => None
  end.

(** ** Requests, responses, handlers *)

Inductive method := GET | HEAD | POST | PUT | DELETE | PATCH | OPTIONS.

Global Instance method_eq_dec : EqDecision method.
Proof. solve_decision. Defined.

(** A route registered with [router.get] also serves HEAD requests when
    the route has no HEAD handler; no router here registers one. *)
Definition handles_method (registered requested : method) : bool :=
  match requested with
  | HEAD => bool_decide (registered = GET) || bool_decide (registered = HEAD)
  | _ => bool_decide (registered = requested)
  end.

(** Column values as they travel between JavaScript and the database. *)
Inductive value :=
  | VNull
  | VStr (s : string)
  | VNum (n : Z)
  | VDate (t : Z).

Global Instance value_eq_dec : EqDecision value.
Proof. solve_decision. Defined.

Abbreviation row := (gmap string value).

Inductive payload :=
  | NoContent
  | Message (msg : string)
  | Record_ (r : row)
  | Records (rs : list row).

Record response := Response { status : Z; body : payload }.

Module work_controller.
(** The names imported from controllers/work/work.controller. *)
Inductive t :=
  | create | findAll | findOne | deleteOne | assignWorkToSector
  | getWorkByUserId | pickWork | createWeaklyTask | getWeeklyTask
  | updateWeeklyTask | getWeeklyTaskById.
Global Instance work_eq_dec : EqDecision t.
Proof. solve_decision. Defined.
End work_controller.

Module zone_controller.
(** The names imported from controllers/zone/zone.controller. *)
Inductive t := create | findAll | findOne | deleteOne.
Global Instance zone_eq_dec : EqDecision t.
Proof. solve_decision. Defined.
End zone_controller.

Module group_controller.
(** The names imported from controllers/group/group.controller. *)
Inductive t := create | findAll | findOne.
Global Instance group_eq_dec : EqDecision t.
Proof. solve_decision. Defined.
End group_controller.

Inductive controller :=
  | Work (c : work_controller.t)
  | Zone (c : zone_controller.t)
  | Group (c : group_controller.t).

Global Instance controller_eq_dec : EqDecision controller.
Proof. solve_decision. Defined.

Inductive validator :=
  | createWorkValidation
  | updateWeaklyTaskValidation
  | createZoneAdminValidation
  | createGroupValidation.

Global Instance validator_eq_dec : EqDecision validator.
Proof. solve_decision. Defined.

(** What a route's handler list may contain. *)
Inductive handler :=
  | checkPermission (permission : string)
  | validation (v : validator)
  | control (c : controller).

Global Instance handler_eq_dec : EqDecision handler.
Proof. solve_decision. Defined.

Record route := Route {
  r_method : method;
  r_path : string;
  r_stack : list handler
}.

Global Instance route_eq_dec : EqDecision route.
Proof. solve_decision. Defined.

Definition Router := list route.

Definition post (p : string) (hs : list handler) : route := Route POST p hs.
Definition get (p : string) (hs : list handler) : route := Route GET p hs.
Definition put (p : string) (hs : list handler) : route := Route PUT p hs.
Definition delete_ (p : string) (hs : list handler) : route := Route DELETE p hs.

(** ** The three routers, in registration order *)

Module work_routes.
Import work_controller.
Definition router : Router := [
    post "/create" [checkPermission "can_create_work"; validation createWorkValidation; control (Work create)];
    get "/get" [checkPermission "can_view_zone_admin"; control (Work findAll)];
    get "/get/:workId" [checkPermission "can_view_work"; control (Work findOne)];
    delete_ "/:workId" [checkPermission "can_delete_zone_admin"; control (Work deleteOne)];
    post "/assign/:workId" [checkPermission "can_update_work"; control (Work assignWorkToSector)];
    get "/getByUserId" [checkPermission "can_view_work"; control (Work getWorkByUserId)];
    post "/pickWork" [checkPermission "can_update_work"; control (Work pickWork)];
    post "/weeklyTask/" [checkPermission "can_create_weeklyTask"; control (Work createWeaklyTask)];
    get "/weeklyTask/:weekly_task_id" [checkPermission "can_view_weeklyTask"; control (Work getWeeklyTaskById)];
    get "/weeklyTask/:workId" [checkPermission "can_view_weeklyTask"; control (Work getWeeklyTask)];
    put "/weeklyTask/:weekly_task_id" [checkPermission "can_update_weeklyTask"; validation updateWeaklyTaskValidation; control (Work updateWeeklyTask)]
  ].
End work_routes.

Module zone_routes.
Import zone_controller.
Definition router : Router := [
    post "/create" [checkPermission "can_create_zone_admin"; validation createZoneAdminValidation; control (Zone create)];
    get "/get" [checkPermission "can_view_zone_admin"; control (Zone findAll)];
    get "/get/:zone_user_id" [checkPermission "can_view_zone_admin"; control (Zone findOne)];
    delete_ "/:zone_user_id" [checkPermission "can_delete_zone_admin"; control (Zone deleteOne)]
  ].
End zone_routes.

Module group_routes.
Import group_controller.
(** The [router.delete] line of the source is a comment and registers
      nothing. *)
Definition router : Router := [
    post "/create" [checkPermission "can_create_group"; validation createGroupValidation; control (Group create)];
    get "/get" [checkPermission "can_view_group"; control (Group findAll)];
    get "/get/:group_id" [checkPermission "can_view_sector"; control (Group findOne)]
  ].
End group_routes.

(** ** Sequelize: data types, defaults, model definitions *)

Inductive DataType := STRING | INTEGER | UUID | DATE.

Inductive Default :=
  | NoDefault
  | Literal (v : value)
  | UUIDV4
  | NOW.

(** One attribute of [sequelize.define]. An option the source leaves out
    has Sequelize's default: [allowNull] true, no [defaultValue],
    [primaryKey] false. *)
Record attribute := Attribute {
  type : DataType;
  allowNull : bool;
  defaultValue : Default;
  primaryKey : bool
}.

Definition Model := list (string * attribute).

Module weeklyTask.
Definition WeeklyTask : Model := [
    ("weekly_task_id",
      {| type := UUID; defaultValue := UUIDV4; primaryKey := true; allowNull := false |});
    ("description",
      {| type := STRING; allowNull := false; defaultValue := NoDefault; primaryKey := false |});
    ("status",
      {| type := STRING; allowNull := false; defaultValue := Literal (VStr "unassigned");
         primaryKey := false |});
    ("workId",
      {| type := UUID; allowNull := false; defaultValue := NoDefault; primaryKey := false |});
    ("weekNumber",
      {| type := INTEGER; allowNull := false; defaultValue := NoDefault; primaryKey := false |});
    ("sectorId",
      {| type := INTEGER; allowNull := false; defaultValue := NoDefault; primaryKey := false |});
    ("pickedBy",
      {| type := UUID; allowNull := true; defaultValue := NoDefault; primaryKey := false |});
    ("createdAt",
      {| type := DATE; allowNull := false; defaultValue := NOW; primaryKey := false |});
    ("updatedAt",
      {| type := DATE; allowNull := false; defaultValue := NOW; primaryKey := false |})
  ].
End weeklyTask.

(** *** UUIDs *)

Definition hex_digit (n : Z) : ascii :=
  match (n mod 16)%Z with
  | 0 => "0" | 1 => "1" | 2 => "2" | 3 => "3" | 4 => "4" | 5 => "5"
  | 6 => "6" | 7 => "7" | 8 => "8" | 9 => "9" | 10 => "a" | 11 => "b"
  | 12 => "c" | 13 => "d" | 14 => "e" | _ => "f"
  end%Z%char.

Definition hex_byte (b : Z) (k : string) : string :=
  String (hex_digit (Z.shiftr (Z.land b 255) 4)) (String (hex_digit (Z.land b 15)) k).

(** The textual form 8-4-4-4-12 of sixteen bytes. *)
Definition uuid_stringify (b : nat -> Z) : string :=
  hex_byte (b 0%nat) (hex_byte (b 1%nat) (hex_byte (b 2%nat) (hex_byte (b 3%nat)
  (String "-" (hex_byte (b 4%nat) (hex_byte (b 5%nat)
  (String "-" (hex_byte (b 6%nat) (hex_byte (b 7%nat)
  (String "-" (hex_byte (b 8%nat) (hex_byte (b 9%nat)
  (String "-" (hex_byte (b 10%nat) (hex_byte (b 11%nat) (hex_byte (b 12%nat)
  (hex_byte (b 13%nat) (hex_byte (b 14%nat) (hex_byte (b 15%nat) ""))))))))))))))))))).

(** Version 4: sixteen random bytes with the version nibble forced to 4
    and the variant bits to binary 10. *)
Definition uuid_v4 (rnds : list Z) : string :=
  uuid_stringify (fun i =>
    let r := nth i rnds 0%Z in
    match i with
    | 6%nat => Z.lor (Z.land r 15) 64
    | 8%nat => Z.lor (Z.land r 63) 128
    | _ => r
    end).

(** The bits of byte [i] of a version-4 UUID that come from the random
    source. *)
Definition random_bits (i : nat) : Z :=
  match i with
  | 6%nat => 15
  | 8%nat => 63
  | _ => 255
  end.

Definition is_hex (c : ascii) : bool :=
  let n := nat_of_ascii c in
  ((48 <=? n) && (n <=? 57) || (97 <=? n) && (n <=? 102) || (65 <=? n) && (n <=? 70))%nat.

Fixpoint is_uuid_from (i : nat) (s : string) : bool :=
  match s with
  | EmptyString => (i =? 36)%nat
  | String c s' =>
      (if (i =? 8)%nat || (i =? 13)%nat || (i =? 18)%nat || (i =? 23)%nat
       then Ascii.eqb c "-" else is_hex c)
      && is_uuid_from (S i) s'
  end.

(** Eight, four, four, four and twelve hexadecimal digits. *)
Definition is_uuid (s : string) : bool := is_uuid_from 0 s.

(** The version digit is 4 and the variant digit is 8, 9, a or b. *)
Definition is_uuid_v4 (s : string) : bool :=
  is_uuid s
  && match String.get 14 s with Some c => Ascii.eqb c "4" | None => false end
  && match String.get 19 s with
     | Some c => Ascii.eqb c "8" || Ascii.eqb c "9" || Ascii.eqb c "a" || Ascii.eqb c "b"
     | None => false
     end.

(** *** Typed storage *)

Fixpoint all_digits (s : string) : bool :=
  match s with
  | EmptyString => true
  | String c s' =>
      let n := nat_of_ascii c in (48 <=? n)%nat && (n <=? 57)%nat && all_digits s'
  end.

Fixpoint digits_value (acc : Z) (s : string) : Z :=
  match s with
  | EmptyString => acc
  | String c s' => digits_value (10 * acc + (Z.of_nat (nat_of_ascii c) - 48)) s'
  end.

(** The integer a decimal literal denotes, as the database reads a text
    parameter offered for an integer column. *)
Definition parse_int (s : string) : option Z :=
  match s with
  | EmptyString => None
  | String c ds =>
      if Ascii.eqb c "-" then
        match ds with
        | EmptyString => None
        | String _ _ => if all_digits ds then Some (- digits_value 0 ds)%Z else None
        end
      else if all_digits s then Some (digits_value 0 s) else None
  end.

(** Whether a non-null value is of a column's type. Width limits
    (VARCHAR(255), 32-bit integers) depend on the dialect and are left out. *)
Definition has_type (ty : DataType) (v : value) : bool :=
  match ty, v with
  | STRING, VStr _ => true
  | INTEGER, VNum _ => true
  | UUID, VStr s => is_uuid s
  | DATE, VDate _ => true
  | _, _ => false
  end.

(** What a column of type [ty] stores for a non-null [v], or [None] when
    the database refuses it. A value of the column's type is stored as it
    is; a decimal literal offered for an integer column is stored as the
    integer it denotes. What the dialects do beyond that is left out: a
    UUID is kept in the letter case it was written in, where PostgreSQL
    stores its lower-case form (the form of the identifiers the library
    generates), and a date written as a string is not read as a date. *)
Definition cast (ty : DataType) (v : value) : option value :=
  if has_type ty v then Some v
  else match ty, v with
       | INTEGER, VStr s => VNum <$> parse_int s
       | _, _ => None
       end.

Definition store_value (a : attribute) (v : value) : option value :=
  match v with
  | VNull => if allowNull a then Some VNull else None
  | _ => cast (type a) v
  end.

(** *** Tables and the operations of a model *)

Inductive error :=
  | ValidationError
  | DatabaseError
  | UniqueConstraintError.

Global Instance error_eq_dec : EqDecision error.
Proof. solve_decision. Defined.

Abbreviation table := (gmap string row).

(** The name of the primary-key attribute. *)
Fixpoint primary_key (m : Model) : option string :=
  match m with
  | [] => None
  | (name, a) :: m' => if primaryKey a then Some name else primary_key m'
  end.

(** Keys of the tables are the textual primary keys of their rows. *)
Definition key_of (m : Model) (r : row) : option string :=
  match primary_key m with
  | Some pk => match r !! pk with Some (VStr k) => Some k | _ => None end
  | None => None
  end.

(** The validation Sequelize runs before it issues a statement: an
    attribute with [allowNull: false] must have a value. *)
Definition not_null_ok (m : Model) (r : row) : bool :=
  forallb (fun '(name, a) =>
    allowNull a || negb (bool_decide (default VNull (r !! name) = VNull))) m.

(** The row as the database stores it, column by column. *)
Fixpoint store_row (m : Model) (r : row) : option (list (string * value)) :=
  match m with
  | [] => Some []
  | (name, a) :: m' =>
      match store_value a (default VNull (r !! name)), store_row m' r with
      | Some v, Some fields => Some ((name, v) :: fields)
      | _, _ => None
      end
  end.

Definition persist (m : Model) (r : row) : error + row :=
  if not_null_ok m r then
    match store_row m r with
    | Some fields => inr (list_to_map fields)
    | None => inl DatabaseError
    end
  else inl ValidationError.

(** The values a payload can hold that JavaScript takes for false. *)
Definition falsy (v : value) : bool :=
  match v with
  | VNull => true
  | VStr s => bool_decide (s = "")
  | VNum n => bool_decide (n = 0%Z)
  | VDate _ => false
  end.

(** The timestamps [save] sets on a new row, before it validates:
    updatedAt always, whatever the caller gave, and createdAt where the
    built row has none. *)
Definition stamp (now : Z) (r : row) : row :=
  <["updatedAt" := VDate now]>
    (if falsy (default VNull (r !! "createdAt")) then <["createdAt" := VDate now]> r
     else r).

Section Sequelize.

(** The random source behind [DataTypes.UUIDV4]: the bytes of the n-th
    draw. *)
Variable randomBytes : nat -> list Z.

(** [Model.build]: an attribute the caller leaves out takes its default.
    The second component counts the draws from the random source. *)
Fixpoint build (m : Model) (values : row) (now : Z) (n : nat)
  : list (string * value) * nat :=
  match m with
  | [] => ([], n)
  | (name, a) :: m' =>
      match values !! name with
      | Some v => let '(fields, n') := build m' values now n in ((name, v) :: fields, n')
      | None =>
          match defaultValue a with
          | NoDefault => let '(fields, n') := build m' values now n in ((name, VNull) :: fields, n')
          | Literal v => let '(fields, n') := build m' values now n in ((name, v) :: fields, n')
          | UUIDV4 =>
              let '(fields, n') := build m' values now (S n) in
              ((name, VStr (uuid_v4 (randomBytes n))) :: fields, n')
          | NOW => let '(fields, n') := build m' values now n in ((name, VDate now) :: fields, n')
          end
      end
  end.

(** [Model.create]: build, stamp, validate, insert. The insert fails when
    the primary key is already in the table. The clock is read once for
    the whole operation: the library reads it again between building and
    saving, so the timestamps of one row need not be equal. *)
Definition Model_create (m : Model) (tbl : table) (values : row) (now : Z) (n : nat)
  : (error + row) * table * nat :=
  let '(fields, n') := build m values now n in
  match persist m (stamp now (list_to_map fields)) with
  | inl e => (inl e, tbl, n')
  | inr r =>
      match key_of m r with
      | Some k =>
          match tbl !! k with
          | Some _ => (inl UniqueConstraintError, tbl, n')
          | None => (inr r, <[k := r]> tbl, n')
          end
      | None => (inl DatabaseError, tbl, n')
      end
  end.

End Sequelize.

(** The validation of an update looks at the attributes the patch names
    and no others. *)
Definition patch_not_null_ok (m : Model) (patch : row) : bool :=
  forallb (fun '(name, a) =>
    allowNull a || negb (bool_decide (patch !! name = Some VNull))) m.

(** The columns an update writes: the attributes the patch names, as the
    database stores them. *)
Fixpoint store_patch (m : Model) (patch : row) : option (list (string * value)) :=
  match m with
  | [] => Some []
  | (name, a) :: m' =>
      match patch !! name with
      | Some v =>
          match store_value a v, store_patch m' patch with
          | Some v', Some fields => Some ((name, v') :: fields)
          | _, _ => None
          end
      | None => store_patch m' patch
      end
  end.

(** The key of the row [r'] an update of the row at [k] leaves: [k],
    unless the patch names the primary key. *)
Definition updated_key (m : Model) (patch r' : row) (k : string) : option string :=
  match primary_key m with
  | Some pk => if bool_decide (is_Some (patch !! pk)) then key_of m r' else Some k
  | None => Some k
  end.

(** [Model.update(patch, where primary key = k and cond)]: one statement,
    which also sets updatedAt. The patch is validated and its values are
    read by the database before any row is looked for. A patch that
    names the primary key moves the row, unless another row has the new
    key. The number returned is the affected-row count. *)
Definition Model_update (m : Model) (tbl : table) (k : string)
    (cond : row -> bool) (patch : row) (now : Z) : (error + nat) * table :=
  let values := <["updatedAt" := VDate now]> patch in
  if patch_not_null_ok m values then
    match store_patch m values with
    | Some fields =>
        match tbl !! k with
        | Some r =>
            if cond r then
              let r' := list_to_map fields ∪ r in
              match updated_key m values r' k with
              | Some k' =>
                  if bool_decide (k' = k) then (inr 1%nat, <[k := r']> tbl)
                  else match tbl !! k' with
                       | Some _ => (inl UniqueConstraintError, tbl)
                       | None => (inr 1%nat, <[k' := r']> (delete k tbl))
                       end
              | None => (inl DatabaseError, tbl)
              end
            else (inr 0%nat, tbl)
        | None => (inr 0%nat, tbl)
        end
    | None => (inl DatabaseError, tbl)
    end
  else (inl ValidationError, tbl).

(** [Model.destroy ... where primary key = k]. *)
Definition Model_destroy (tbl : table) (k : string) : nat * table :=
  match tbl !! k with
  | Some _ => (1%nat, delete k tbl)
  | None => (0%nat, tbl)
  end.

(** [Model.findByPk]. *)
Definition Model_findByPk (tbl : table) (k : string) : option row := tbl !! k.

(** ** The state a request runs against *)

Record world := World {
  Works : table;
  WeeklyTasks : table;
  draws : nat;
  clock : Z
}.

Definition set_Works (t : table) (w : world) : world :=
  {| Works := t; WeeklyTasks := WeeklyTasks w; draws := draws w; clock := clock w |}.

Definition set_WeeklyTasks (t : table) (n : nat) (w : world) : world :=
  {| Works := Works w; WeeklyTasks := t; draws := n; clock := clock w |}.

Definition ok (b : payload) : response := Response 200 b.
Definition bad_request : response := Response 400 (Message "Invalid request").
Definition forbidden : response := Response 403 (Message "Forbidden").
Definition not_found : response := Response 404 (Message "Not found").
Definition conflict : response := Response 409 (Message "Conflict").
Definition server_error : response := Response 500 (Message "Internal server error").

Definition error_response (e : error) : response :=
  match e with
  | ValidationError => bad_request
  | DatabaseError => server_error
  | UniqueConstraintError => server_error
  end.

Definition succeeded (r : response) : bool := bool_decide (status r = 200%Z).

(** ** Controllers *)


Section Controllers.

Variable randomBytes : nat -> list Z.

(** The status [pickWork] writes, the [status_value] of a
    [claimed_status]. *)
Variable picked_status : string.

(** [WeeklyTask.create(values)] against the world. *)
Definition WeeklyTask_create (values : row) (w : world) : (error + row) * world :=
  let '(res, tbl, n) :=
    Model_create randomBytes weeklyTask.WeeklyTask (WeeklyTasks w) values (clock w) (draws w) in
  (res, set_WeeklyTasks tbl n w).

Definition weekly_task_values (workId description sectorId weekNumber : value) : row :=
  {[ "workId" := workId; "description" := description;
     "sectorId" := sectorId; "weekNumber" := weekNumber ]}.

(** Modelled from the spec: the loop of [createWeaklyTask] in
    controllers/work/work.controller, which is not among the sources.
    For each sector it creates a WeeklyTask row scoped to that sector and
    week; status and pickedBy are left to the model's defaults. The
    description, which the model requires, is an argument. The loop stops
    at the first row the model refuses. *)
Fixpoint create_weekly_tasks (workId description : value) (sectorIds : list value)
    (weekNumber : value) (w : world) : (error + list row) * world :=
  match sectorIds with
  | [] => (inr [], w)
  | sectorId :: rest =>
      match WeeklyTask_create (weekly_task_values workId description sectorId weekNumber) w with
      | (inl e, w') => (inl e, w')
      | (inr r, w') =>
          match create_weekly_tasks workId description rest weekNumber w' with
          | (inl e, w'') => (inl e, w'')
          | (inr rs, w'') => (inr (r :: rs), w'')
          end
      end
  end.

(** Modelled from the spec: [createWeaklyTask] of
    controllers/work/work.controller (not among the sources). *)
Definition createWeaklyTask (workId description : value) (sectorIds : list value)
    (weekNumber : value) (w : world) : response * world :=
  match create_weekly_tasks workId description sectorIds weekNumber w with
  | (inl e, w') => (error_response e, w')
  | (inr rs, w') => (ok (Records rs), w')
  end.

Definition unpicked (r : row) : bool :=
  bool_decide (default VNull (r !! "pickedBy") = VNull).

(** Modelled from the spec: [pickWork] of controllers/work/work.controller
    (not among the sources), as the spec words it: one conditional update
    [set pickedBy = user, status = picked_status where id = task and
    pickedBy is null], then a look at the affected-row count. *)
Definition pickWork (task user : string) (w : world) : response * world :=
  match Model_update weeklyTask.WeeklyTask (WeeklyTasks w) task unpicked
          {[ "pickedBy" := VStr user; "status" := VStr picked_status ]} (clock w) with
  | (inl e, _) => (error_response e, w)
  | (inr 0%nat, _) => (conflict, w)
  | (inr _, tbl) => (ok (Message "Work picked"), set_WeeklyTasks tbl (draws w) w)
  end.

(** Modelled from the spec: [findOne] of controllers/work/work.controller
    (not among the sources): a read-only lookup by id, 404 when the
    entity is missing. *)
Definition findOne (workId : string) (w : world) : response * world :=
  match Model_findByPk (Works w) workId with
  | Some r => (ok (Record_ r), w)
  | None => (not_found, w)
  end.

(** Modelled from the spec: [deleteOne] of controllers/work/work.controller
    (not among the sources): deletes the Work, NotFound when there is no
    Work of that id. *)
Definition deleteOne (workId : string) (w : world) : response * world :=
  match Model_destroy (Works w) workId with
  | (0%nat, _) => (not_found, w)
  | (_, tbl) => (ok (Message "Work deleted"), set_Works tbl w)
  end.

End Controllers.

(** ** Dispatch *)

Record request := Request {
  req_method : method;
  req_path : string;
  req_headers : list (string * string);
  req_body : string
}.

Inductive outcome :=
  | Next
  | Send (r : response).

Section Dispatch.

(** Modelled from the spec: [checkPermission] of middlewares/accessControl
    (not among the sources) authorizes the caller before the controller
    runs and rejects the request otherwise. Whether a caller holds a
    permission is the parameter [permitted]. *)
Variable permitted : request -> string -> bool.

(** The validation middlewares (validation/.../*.validation, not among
    the sources): a request passes or is answered with 400. *)
Variable validates : validator -> request -> bool.

(** The controllers end the request: they answer and do not call [next]. *)
Variable run : controller -> params -> request -> world -> response * world.

Definition run_handler (h : handler) (ps : params) (req : request) (w : world)
  : outcome * world :=
  match h with
  | checkPermission p => if permitted req p then (Next, w) else (Send forbidden, w)
  | validation v => if validates v req then (Next, w) else (Send bad_request, w)
  | control c => let '(r, w') := run c ps req w in (Send r, w')
  end.

(** Runs a route's handlers in order until one answers. The first
    component lists the handlers that ran. *)
Fixpoint run_stack (hs : list handler) (ps : params) (req : request) (w : world)
  : list handler * outcome * world :=
  match hs with
  | [] => ([], Next, w)
  | h :: hs' =>
      match run_handler h ps req w with
      | (Next, w') =>
          let '(tr, o, w'') := run_stack hs' ps req w' in (h :: tr, o, w'')
      | (Send r, w') => ([h], Send r, w')
      end
  end.

Definition route_matches (r : route) (m : method) (segs : list string) : option params :=
  if handles_method (r_method r) m then match_segs (compile_path (r_path r)) segs
  else None.

(** [router.handle]: the routes are tried in registration order; a later
    route is tried only if every handler of the earlier one called [next]. *)
Fixpoint handle (rt : Router) (segs : list string) (req : request) (w : world)
  : list handler * outcome * world :=
  match rt with
  | [] => ([], Next, w)
  | r :: rt' =>
      match route_matches r (req_method req) segs with
      | Some ps =>
          match run_stack (r_stack r) ps req w with
          | (tr, Next, w') =>
              let '(tr', o, w'') := handle rt' segs req w' in (tr ++ tr', o, w'')
          | res => res
          end
      | None => handle rt' segs req w
      end
  end.

(** [app.use(prefix, router)] for each mounted router, in order. *)
Fixpoint handle_mounts (mounts : list (string * Router)) (segs : list string)
    (req : request) (w : world) : list handler * outcome * world :=
  match mounts with
  | [] => ([], Next, w)
  | (prefix, rt) :: mounts' =>
      match strip_prefix (default [] (segments prefix)) segs with
      | Some segs' =>
          match handle rt segs' req w with
          | (tr, Next, w') =>
              let '(tr', o, w'') := handle_mounts mounts' segs req w' in (tr ++ tr', o, w'')
          | res => res
          end
      | None => handle_mounts mounts' segs req w
      end
  end.

(** The paths of [mounts] a request path falls on, whatever the method. *)
Definition path_known (mounts : list (string * Router)) (segs : list string) : bool :=
  existsb (fun '(prefix, rt) =>
    match strip_prefix (default [] (segments prefix)) segs with
    | Some segs' =>
        existsb (fun r => bool_decide (is_Some (match_segs (compile_path (r_path r)) segs'))) rt
    | None => false
    end) mounts.

(** A request nobody answered gets Express's final 404; an OPTIONS
    request on a registered path is answered by the router itself. *)
Definition serve (mounts : list (string * Router)) (req : request) (w : world)
  : list handler * response * world :=
  match segments (req_path req) with
  | Some segs =>
      match handle_mounts mounts segs req w with
      | (tr, Send r, w') => (tr, r, w')
      | (tr, Next, w') =>
          if bool_decide (req_method req = OPTIONS) && path_known mounts segs
          then (tr, ok NoContent, w')
          else (tr, not_found, w')
      end
  | None => ([], not_found, w)
  end.

End Dispatch.

(** Modelled from the spec: the mount points of the three routers, set in
    the application's entry file (not among the sources); the @swagger
    paths of the work and zone routers agree with them. *)
Definition mounts : list (string * Router) := [
  ("/structure/work", work_routes.router);
  ("/structure/zone", zone_routes.router);
  ("/structure/group", group_routes.router)
].

Definition lookup_param (name : string) (ps : params) : option string :=
  snd <$> find (fun '(n, _) => String.eqb n name) ps.

Section App.

Variable permitted : request -> string -> bool.
Variable validates : validator -> request -> bool.

(** The controllers whose inputs come from the request body or the
    session; their reading of the request is not among the sources. *)
Variable unspecified : controller -> params -> request -> world -> response * world.

Definition run_controller (c : controller) (ps : params) (req : request) (w : world)
  : response * world :=
  match c with
  | Work work_controller.findOne =>
      match lookup_param "workId" ps with
      | Some workId => findOne workId w
      | None => (not_found, w)
      end
  | Work work_controller.deleteOne =>
      match lookup_param "workId" ps with
      | Some workId => deleteOne workId w
      | None => (not_found, w)
      end
  | _ => unspecified c ps req w
  end.

Definition app (req : request) (w : world) : list handler * response * world :=
  serve permitted validates run_controller mounts req w.

End App.

(** ** Which route serves a request *)

Fixpoint first_match (rt : Router) (m : method) (segs : list string)
  : option (route * params) :=
  match rt with
  | [] => None
  | r :: rt' =>
      match route_matches r m segs with
      | Some ps => Some (r, ps)
      | None => first_match rt' m segs
      end
  end.

Fixpoint find_route (ms : list (string * Router)) (m : method) (segs : list string)
  : option (route * params) :=
  match ms with
  | [] => None
  | (prefix, rt) :: ms' =>
      match strip_prefix (default [] (segments prefix)) segs with
      | Some segs' =>
          match first_match rt m segs' with
          | Some found => Some found
          | None => find_route ms' m segs
          end
      | None => find_route ms' m segs
      end
  end.

Definition is_control (h : handler) : bool :=
  match h with control _ => true | _ => false end.

Definition is_group_control (h : handler) : bool :=
  match h with control (Group _) => true | _ => false end.

(** A stack with a controller in it answers every request that reaches it. *)
Definition answers (hs : list handler) : bool := existsb is_control hs.

Definition all_answer (ms : list (string * Router)) : bool :=
  forallb (fun '(_, rt) => forallb (fun r => answers (r_stack r)) rt) ms.

Definition permissions_of (hs : list handler) : list string :=
  omap (fun h => match h with checkPermission p => Some p | _ => None end) hs.

Definition controllers_of (hs : list handler) : list controller :=
  omap (fun h => match h with control c => Some c | _ => None end) hs.

(** Every registered route: verb, full path, the permissions its stack
    checks. *)
Definition registered (ms : list (string * Router)) : list (method * string * list string) :=
  flat_map (fun '(prefix, rt) =>
    map (fun r => (r_method r, String.append prefix (r_path r), permissions_of (r_stack r))) rt) ms.

(** The HTTP resource table as the specification prints it: verb, path,
    required permission. *)
Definition resource_table : list (method * string * string) := [
  (POST, "/structure/work/create", "can_create_work");
  (GET, "/structure/work/get", "can_view_zone_admin");
  (GET, "/structure/work/get/:workId", "can_view_work");
  (DELETE, "/structure/work/:workId", "can_delete_zone_admin");
  (POST, "/structure/work/assign/:workId", "can_update_work");
  (GET, "/structure/work/getByUserId", "can_view_work");
  (POST, "/structure/work/pickWork", "can_update_work");
  (POST, "/structure/work/weeklyTask/", "can_create_weeklyTask");
  (GET, "/structure/work/weeklyTask/:weekly_task_id", "can_view_weeklyTask");
  (GET, "/structure/work/weeklyTask/:workId", "can_view_weeklyTask");
  (PUT, "/structure/work/weeklyTask/:weekly_task_id", "can_update_weeklyTask");
  (POST, "/structure/zone/create", "can_create_zone_admin");
  (GET, "/structure/zone/get", "can_view_zone_admin");
  (GET, "/structure/zone/get/:zone_user_id", "can_view_zone_admin");
  (DELETE, "/structure/zone/:zone_user_id", "can_delete_zone_admin");
  (POST, "/structure/group/create", "can_create_group");
  (GET, "/structure/group/get", "can_view_group");
  (GET, "/structure/group/get/:group_id", "can_view_sector")
].

(** A route whose stack starts with the permission check the table lists
    for its verb and path. *)
Definition guarded_as_listed (prefix : string) (r : route) : bool :=
  match r_stack r with
  | checkPermission perm :: rest =>
      bool_decide ((r_method r, String.append prefix (r_path r), perm) ∈ resource_table)
      && bool_decide (permissions_of rest = [])
  | _ => false
  end.

(** Whether building the attribute draws from the random source. *)
Definition draws_uuid (a : attribute) : bool :=
  match defaultValue a with UUIDV4 => true | _ => false end.

(** ** What the schema promises of a stored row *)

Definition column_ok (a : attribute) (v : value) : bool :=
  match v with
  | VNull => allowNull a
  | _ => has_type (type a) v
  end.

Definition row_ok (m : Model) (r : row) : Prop :=
  ∀ name a, (name, a) ∈ m → ∃ v, r !! name = Some v ∧ column_ok a v = true.

Definition table_ok (m : Model) (tbl : table) : Prop :=
  ∀ k r, tbl !! k = Some r → row_ok m r ∧ key_of m r = Some k.

(** The tables a model's operations can produce, starting from an empty
    table. *)
Inductive persisted (m : Model) : table -> Prop :=
  | persisted_empty : persisted m ∅
  | persisted_create randomBytes tbl values now n res tbl' n' :
      persisted m tbl ->
      Model_create randomBytes m tbl values now n = (res, tbl', n') ->
      persisted m tbl'
  | persisted_update tbl k cond patch now res tbl' :
      persisted m tbl ->
      Model_update m tbl k cond patch now = (res, tbl') ->
      persisted m tbl'
  | persisted_destroy tbl k n tbl' :
      persisted m tbl ->
      Model_destroy tbl k = (n, tbl') ->
      persisted m tbl'.

(** The identifiers the next [count] draws give, from draw [n] on. *)
Definition next_ids (randomBytes : nat -> list Z) (n count : nat) : list string :=
  map (fun i => uuid_v4 (randomBytes i)) (seq n count).




(** The row [t] after user [user] picked it at time [now]. *)
Definition picked (user st : string) (now : Z) (t : row) : row :=
  list_to_map [("status", VStr st); ("pickedBy", VStr user); ("updatedAt", VDate now)] ∪ t.

(** The attributes of a WeeklyTask row, in the order of the model. *)
Definition weekly_task_fields (tid description status workId weekNumber sectorId pickedBy
    createdAt updatedAt : value) : list (string * value) :=
  [ ("weekly_task_id", tid); ("description", description); ("status", status);
    ("workId", workId); ("weekNumber", weekNumber); ("sectorId", sectorId);
    ("pickedBy", pickedBy); ("createdAt", createdAt); ("updatedAt", updatedAt) ].

(** The row [WeeklyTask.create] stores for a new task. *)
Definition new_weekly_task (tid d wid : string) (weekNumber sectorId now : Z) : row :=
  list_to_map (weekly_task_fields (VStr tid) (VStr d) (VStr "unassigned") (VStr wid)
                 (VNum weekNumber) (VNum sectorId) VNull (VDate now) (VDate now)).

(** ** Requests running side by side *)

(** A request in progress: finished with a response, or about to run one
    statement against the shared state. *)
#[warnings="-register-all"]
Inductive thread :=
  | Done (r : response)
  | Atomic (step : world -> thread * world).

Definition step_thread (t : thread) (w : world) : thread * world :=
  match t with
  | Done r => (Done r, w)
  | Atomic step => step w
  end.

(** Two requests under a schedule: [true] lets the first one take a step,
    [false] the second. *)
Fixpoint interleave (sched : list bool) (a b : thread) (w : world)
  : thread * thread * world :=
  match sched with
  | [] => (a, b, w)
  | true :: sched' =>
      let '(a', w') := step_thread a w in interleave sched' a' b w'
  | false :: sched' =>
      let '(b', w') := step_thread b w in interleave sched' a b' w'
  end.

Section Concurrency.

Variable picked_status : string.

(** The [pickWork] request of the spec: its conditional update is one
    statement, so the request is one step. *)
Definition pickWork_request (task user : string) : thread :=
  Atomic (fun w => let '(r, w') := pickWork picked_status task user w in (Done r, w')).

(** Modelled from the spec: the read-then-write pair the spec rules out
    for [pickWork]: a first statement reads the row, a second one writes
    it if the row that was read had no picker. *)
Definition pickWork_read_then_write (task user : string) : thread :=
  Atomic (fun w =>
    match Model_findByPk (WeeklyTasks w) task with
    | Some r =>
        if unpicked r then
          (Atomic (fun w1 =>
             match Model_update weeklyTask.WeeklyTask (WeeklyTasks w1) task (fun _ => true)
                     {[ "pickedBy" := VStr user; "status" := VStr picked_status ]}
                     (clock w1) with
             | (inr (S _), tbl) =>
                 (Done (ok (Message "Work picked")), set_WeeklyTasks tbl (draws w1) w1)
             | (inr 0%nat, _) => (Done not_found, w1)
             | (inl e, _) => (Done (error_response e), w1)
             end), w)
        else (Done conflict, w)
    | None => (Done not_found, w)
    end).

End Concurrency.

(** ** The routers as a whole *)

(** The routers of the sources. *)
Definition routers : list Router :=
  [work_routes.router; zone_routes.router; group_routes.router].

(** The second GET route on /weeklyTask/:id of the work router. *)
Definition shadowed : route :=
  get "/weeklyTask/:workId"
    [checkPermission "can_view_weeklyTask"; control (Work work_controller.getWeeklyTask)].

(** The controllers registered behind a validation middleware. *)
Definition validated : list controller :=
  [ Work work_controller.create; Work work_controller.updateWeeklyTask;
    Zone zone_controller.create; Group group_controller.create ].

(** The first permission check, validation and controller of a route. *)
Definition route_permission (r : route) : option string :=
  head (permissions_of (r_stack r)).

Definition route_validation (r : route) : option validator :=
  head (omap (fun h => match h with validation v => Some v | _ => None end) (r_stack r)).

Definition route_controller (r : route) : option controller :=
  head (controllers_of (r_stack r)).

(** The shape every registration has: the permission check, then the
    validation if there is one, then the controller. *)
Definition expected_stack (r : route) : list handler :=
  match route_permission r, route_validation r, route_controller r with
  | Some p, Some v, Some c => [checkPermission p; validation v; control c]
  | Some p, None, Some c => [checkPermission p; control c]
  | _, _, _ => []
  end.

(** The controllers a request of each verb can reach. *)
Definition served_on (m : method) : list controller :=
  match m with
  | GET | HEAD =>
      [ Work work_controller.findAll; Work work_controller.findOne;
        Work work_controller.getWorkByUserId; Work work_controller.getWeeklyTaskById;
        Zone zone_controller.findAll; Zone zone_controller.findOne;
        Group group_controller.findAll; Group group_controller.findOne ]
  | POST =>
      [ Work work_controller.create; Work work_controller.assignWorkToSector;
        Work work_controller.pickWork; Work work_controller.createWeaklyTask;
        Zone zone_controller.create; Group group_controller.create ]
  | PUT => [ Work work_controller.updateWeeklyTask ]
  | DELETE => [ Work work_controller.deleteOne; Zone zone_controller.deleteOne ]
  | PATCH | OPTIONS => []
  end.

(** A string without a slash. *)
Fixpoint slash_free (s : string) : bool :=
  match s with
  | EmptyString => true
  | String c s' => negb (Ascii.eqb c "/") && slash_free s'
  end.

(** ** The @swagger annotations *)

(** The @swagger annotations of the work router, in source order: path,
    verb, the parameters the annotation declares as [in: path]. *)
Definition work_swagger : list (string * method * list string) := [
  ("/structure/work/create", POST, []);
  ("/structure/work/get", GET, []);
  ("/structure/work/get/{workId}", GET, ["workId"]);
  ("/structure/work/{workId}", DELETE, ["workId"]);
  ("/structure/work/assign/{workId}", POST, ["workId"]);
  ("/structure/work/getByUserId", GET, []);
  ("/structure/work/pickWork", POST, ["workId"]);
  ("/structure/work/weeklyTask/", POST, []);
  ("/structure/work/weeklyTask/{weekly_task_id}", GET, ["weekly_task_id"]);
  ("/structure/work/weeklyTask/{workId}", GET, ["workId"]);
  ("/structure/work/weeklyTask/{weekly_task_id}", PUT, ["weekly_task_id"])
].

(** The @swagger annotations of the zone router. *)
Definition zone_swagger : list (string * method * list string) := [
  ("/structure/zone/create", POST, []);
  ("/structure/zone/get", GET, []);
  ("/structure/zone/get/{zone_user_id}", GET, ["zone_user_id"]);
  ("/structure/zone/{zone_user_id}", DELETE, ["zone_user_id"])
].

(** An Express parameter [:name] in OpenAPI notation, [{name}]. *)
Definition openapi_seg (s : string) : string :=
  match s with
  | String ":" name => "{" +:+ name +:+ "}"
  | _ => s
  end.

Definition openapi_path (p : string) : string :=
  String.concat "/" (map openapi_seg (split_slash p)).

(** The parameter names of a route path. *)
Definition path_parameters (p : string) : list string :=
  omap (fun s => match s with Param x => Some x | Lit _ => None end) (compile_path p).

(** The annotation a route registered under [prefix] should carry. *)
Definition documented (prefix : string) (r : route) : string * method * list string :=
  (openapi_path (prefix +:+ r_path r), r_method r, path_parameters (r_path r)).

(** ** What a model asks of the values it is given *)

Definition no_default (a : attribute) : bool :=
  match defaultValue a with NoDefault => true | _ => false end.

(** The attributes a caller has to supply: not nullable and without a
    default. *)
Definition required (m : Model) : list string :=
  (filter (fun '(_, a) => negb (allowNull a) && no_default a = true) m).*1.

(** What [build] gives an attribute. *)
Definition built_value (rb : nat -> list Z) (a : attribute) (given : option value)
    (now : Z) (v : value) : Prop :=
  match given with
  | Some v0 => v = v0
  | None =>
      match defaultValue a with
      | NoDefault => v = VNull
      | Literal l => v = l
      | UUIDV4 => ∃ k, v = VStr (uuid_v4 (rb k))
      | NOW => v = VDate now
      end
  end.

(** ** Sample data *)

(** A random source, an empty world, a Work id and a user id in UUID
    form, and the first task the model creates in that world. *)
Definition sample_random (n : nat) : list Z := [Z.of_nat n; 7; 9]%Z.
Definition sample_world : world := World ∅ ∅ 0 1000.
Definition sample_work_id : string := "a5166002-89bb-4a3c-a34a-39b44d33c212".
Definition sample_user : string := "5725a78a-98cf-4da8-96ab-cc72a5b5af0a".
Definition sample_task_id : string := uuid_v4 (sample_random 0).
Definition sample_task : row :=
  new_weekly_task sample_task_id "Paint fence" sample_work_id 4 1 1000.
Definition sample_values : row :=
  weekly_task_values (VStr sample_work_id) (VStr "Paint fence") (VNum 1) (VStr "4").
Definition sample_world_1 : world :=
  set_WeeklyTasks (<[sample_task_id := sample_task]> ∅) 1 sample_world.
Definition sample_works : world :=
  World {[ sample_work_id := {[ "description" := VStr "Paint fence" ]} ]} ∅ 0 1000.

(** A caller holding every permission, payloads that all validate, and
    controllers that answer 200 without touching the state. *)
Definition allow_all (req : request) (perm : string) : bool := true.
Definition valid_all (v : validator) (req : request) : bool := true.
Definition answer_ok (c : controller) (ps : params) (req : request) (w : world)
  : response * world := (ok NoContent, w).

Definition sample_get : request := Request GET "/structure/work/weeklyTask/abc" [] "".
Definition sample_post : request := Request POST "/structure/work/create" [] "".
Definition sample_delete : request := Request DELETE "/structure/group/get/1" [] "".

(** The listing route of the work router with a request for it, and a
    payload that brings its own identifier. *)
Definition sample_list_route : route :=
  get "/get" [checkPermission "can_view_zone_admin"; control (Work work_controller.findAll)].
Definition sample_list : request := Request GET "/structure/work/get" [] "".
Definition sample_values_with_id : row :=
  <["weekly_task_id" := VStr sample_user]> sample_values.

(** A payload whose identifier is that of a Work, and a random source
    that gives every draw the same bytes. *)
Definition sample_values_work_id : row :=
  <["weekly_task_id" := VStr sample_work_id]> sample_values.

(** Case analysis on whether the route at the head of [first_match]
    matches. *)
Ltac first_route :=
  lazymatch goal with
  | |- match route_matches ?r ?m ?segs with _ => _ end = _ -> _ =>
      destruct (route_matches r m segs) eqn:?
  end.

(** Evaluates the route paths of the goal to their patterns. *)
Ltac eval_paths :=
  repeat match goal with
         | |- context [compile_path ?p] =>
             let v := eval vm_compute in (compile_path p) in
             change (compile_path p) with v
         end.

(** Membership of a named attribute in the WeeklyTask model. *)
Ltac in_model :=
  unfold weeklyTask.WeeklyTask;
  repeat first [apply list_elem_of_here | apply list_elem_of_further].


(** Lookups in maps written with explicit keys. *)
Ltac map_lookups :=
  repeat first
    [ rewrite lookup_insert_eq
    | rewrite lookup_insert_ne by done
    | rewrite lookup_singleton_eq
    | rewrite lookup_singleton_ne by done
    | rewrite lookup_empty ].

(** * Properties *)

(** ** Dispatch goes to the first matching route *)

Section DispatchFacts.

Variable permitted : request -> string -> bool.
Variable validates : validator -> request -> bool.
Variable run : controller -> params -> request -> world -> response * world.

Local Abbreviation run_stack_ := (run_stack permitted validates run).
Local Abbreviation handle_ := (handle permitted validates run).
Local Abbreviation handle_mounts_ := (handle_mounts permitted validates run).
Local Abbreviation serve_ := (serve permitted validates run).

Lemma run_stack_answers hs ps req w :
  answers hs = true -> (run_stack_ hs ps req w).1.2 ≠ Next.
Proof.
  revert w. induction hs as [|h hs IH]; intros w Hans; [done|].
  cbn [run_stack].
  destruct (run_handler permitted validates run h ps req w) as [[|r] w'] eqn:Hh.
  - assert (answers hs = true) as Hhs.
    { destruct h; cbn in *; try done.
      destruct (run c ps req w); done. }
    specialize (IH w' Hhs).
    destruct (run_stack_ hs ps req w') as [[tr o] w'']. exact IH.
  - done.
Qed.

Lemma run_stack_trace_prefix hs ps req w :
  (run_stack_ hs ps req w).1.1 `prefix_of` hs.
Proof.
  revert w. induction hs as [|h hs IH]; intros w; [done|].
  cbn [run_stack].
  destruct (run_handler permitted validates run h ps req w) as [[|r] w'].
  - specialize (IH w').
    destruct (run_stack_ hs ps req w') as [[tr o] w'']. cbn in *.
    by apply prefix_cons.
  - cbn. apply prefix_cons, prefix_nil.
Qed.

(** A stack that starts with a permission check runs nothing else for a
    caller without the permission, and starts with the check otherwise. *)
Lemma run_stack_guarded perm rest ps req w :
  run_stack_ (checkPermission perm :: rest) ps req w =
    if permitted req perm
    then let '(tr, o, w') := run_stack_ rest ps req w in (checkPermission perm :: tr, o, w')
    else ([checkPermission perm], Send forbidden, w).
Proof. cbn. by destruct (permitted req perm). Qed.

Lemma first_match_Some rt m segs r ps :
  first_match rt m segs = Some (r, ps) ->
  r ∈ rt ∧ route_matches r m segs = Some ps.
Proof.
  induction rt as [|r0 rt IH]; [done|]. cbn.
  destruct (route_matches r0 m segs) as [ps0|] eqn:Hm.
  - intros [= -> ->]. split; [apply list_elem_of_here | done].
  - intros H. destruct (IH H). split; [by apply list_elem_of_further | done].
Qed.

Lemma find_route_Some ms m segs r ps :
  find_route ms m segs = Some (r, ps) ->
  ∃ prefix rt segs',
    (prefix, rt) ∈ ms ∧ r ∈ rt
    ∧ strip_prefix (default [] (segments prefix)) segs = Some segs'
    ∧ route_matches r m segs' = Some ps.
Proof.
  induction ms as [|[prefix rt] ms IH]; [done|]. cbn.
  destruct (strip_prefix _ segs) as [segs'|] eqn:Hp.
  - destruct (first_match rt m segs') as [[r0 ps0]|] eqn:Hf.
    + intros [= -> ->]. apply first_match_Some in Hf as [? ?].
      exists prefix, rt, segs'. split_and!; try done. apply list_elem_of_here.
    + intros H. destruct (IH H) as (p & rt' & s' & ? & ?).
      exists p, rt', s'. split; [by apply list_elem_of_further | done].
  - intros H. destruct (IH H) as (p & rt' & s' & ? & ?).
    exists p, rt', s'. split; [by apply list_elem_of_further | done].
Qed.

Lemma handle_first_match rt segs req w :
  forallb (fun r => answers (r_stack r)) rt = true ->
  handle_ rt segs req w =
    match first_match rt (req_method req) segs with
    | Some (r, ps) => run_stack_ (r_stack r) ps req w
    | None => ([], Next, w)
    end.
Proof.
  induction rt as [|r rt IH]; [done|]. cbn.
  intros [Hr Hrt]%andb_prop.
  destruct (route_matches r (req_method req) segs) as [ps|]; [|by apply IH].
  pose proof (run_stack_answers (r_stack r) ps req w Hr) as Hne.
  destruct (run_stack_ (r_stack r) ps req w) as [[tr [|resp]] w']; done.
Qed.

Lemma handle_mounts_find_route ms segs req w :
  all_answer ms = true ->
  handle_mounts_ ms segs req w =
    match find_route ms (req_method req) segs with
    | Some (r, ps) => run_stack_ (r_stack r) ps req w
    | None => ([], Next, w)
    end.
Proof.
  induction ms as [|[prefix rt] ms IH]; [done|]. cbn.
  intros [Hrt Hms]%andb_prop.
  destruct (strip_prefix _ segs) as [segs'|]; [|by apply IH].
  rewrite (handle_first_match rt segs' req w Hrt).
  destruct (first_match rt (req_method req) segs') as [[r ps]|] eqn:Hf.
  - apply first_match_Some in Hf as [Hin _].
    assert (answers (r_stack r) = true) as Hr.
    { rewrite forallb_forall in Hrt. apply Hrt. by apply list_elem_of_In. }
    pose proof (run_stack_answers (r_stack r) ps req w Hr) as Hne.
    destruct (run_stack_ (r_stack r) ps req w) as [[tr [|resp]] w']; done.
  - rewrite IH by done.
    by destruct (find_route ms (req_method req) segs) as [[r ps]|];
      [destruct (run_stack_ _ _ _ _) as [[? ?] ?]|].
Qed.

(** The handlers that run for a request are those of the first matching
    route, as far as its stack gets. *)
Lemma serve_trace ms req w :
  all_answer ms = true ->
  (serve_ ms req w).1.1 =
    match segments (req_path req) with
    | Some segs =>
        match find_route ms (req_method req) segs with
        | Some (r, ps) => (run_stack_ (r_stack r) ps req w).1.1
        | None => []
        end
    | None => []
    end.
Proof.
  intros Hms. unfold serve.
  destruct (segments (req_path req)) as [segs|]; [|done].
  rewrite handle_mounts_find_route by done.
  destruct (find_route ms (req_method req) segs) as [[r ps]|].
  - destruct (run_stack_ (r_stack r) ps req w) as [[tr [|resp]] w']; [|done].
    by destruct (_ && _).
  - by destruct (_ && _).
Qed.

End DispatchFacts.

(** ** The routers *)

Lemma mounts_all_answer : all_answer mounts = true.
Proof. reflexivity. Qed.

Lemma mounts_guarded prefix rt r :
  (prefix, rt) ∈ mounts -> r ∈ rt -> guarded_as_listed prefix r = true.
Proof.
  intros Hm Hr.
  assert (forallb (fun '(prefix, rt) => forallb (guarded_as_listed prefix) rt) mounts = true)
    as Hall by (vm_compute; reflexivity).
  rewrite forallb_forall in Hall.
  apply list_elem_of_In, Hall in Hm. rewrite forallb_forall in Hm.
  by apply Hm, list_elem_of_In.
Qed.

(** C4. The routes the three routers register are, verb by verb and path
    by path, those of the specification's resource table, each with
    exactly the one permission the table lists; and whenever a controller
    runs for a request, it is the controller of a listed route whose
    permission check ran first and found the caller permitted. *)
Theorem routes_gated_as_listed :
  registered mounts = map (fun '(v, p, perm) => (v, p, [perm])) resource_table
  ∧ ∀ permitted validates run req w c,
      control c ∈ (serve permitted validates run mounts req w).1.1 ->
      ∃ prefix rt r perm tr,
        (prefix, rt) ∈ mounts ∧ r ∈ rt ∧ control c ∈ r_stack r
        ∧ (r_method r, String.append prefix (r_path r), perm) ∈ resource_table
        ∧ permissions_of (r_stack r) = [perm]
        ∧ (serve permitted validates run mounts req w).1.1 = checkPermission perm :: tr
        ∧ permitted req perm = true.
Proof.
  split; [reflexivity|].
  intros permitted validates run req w c.
  rewrite serve_trace by apply mounts_all_answer.
  destruct (segments (req_path req)) as [segs|]; [|by intros ?%elem_of_nil].
  destruct (find_route mounts (req_method req) segs) as [[r ps]|] eqn:Hf;
    [|by intros ?%elem_of_nil].
  apply find_route_Some in Hf as (prefix & rt & segs' & Hm & Hr & _ & _).
  pose proof (mounts_guarded prefix rt r Hm Hr) as Hg.
  unfold guarded_as_listed in Hg.
  destruct (r_stack r) as [|[perm| |] rest] eqn:Hstack; try done.
  apply andb_prop in Hg as [Htab%bool_decide_eq_true Hone%bool_decide_eq_true].
  rewrite run_stack_guarded.
  pose proof (run_stack_trace_prefix permitted validates run rest ps req w) as Hpre.
  destruct (permitted req perm) eqn:Hperm.
  - destruct (run_stack permitted validates run rest ps req w) as [[tr o] w'].
    cbn in *. intros Hc.
    exists prefix, rt, r, perm, tr. rewrite Hstack. split_and!; try done.
    + apply list_elem_of_further.
      apply elem_of_cons in Hc as [?|Hc]; [done|].
      destruct Hpre as [k ->]. apply elem_of_app. by left.
    + change (perm :: permissions_of rest = [perm]). by rewrite Hone.
  - cbn. intros Hc. apply elem_of_cons in Hc as [?|Hc]; [done|].
    by apply elem_of_nil in Hc.
Qed.

(** A controller that runs for a request belongs to the route
    [find_route] picks for it. *)
Lemma served_by permitted validates run ms req w c :
  all_answer ms = true ->
  control c ∈ (serve permitted validates run ms req w).1.1 ->
  ∃ segs r ps,
    segments (req_path req) = Some segs
    ∧ find_route ms (req_method req) segs = Some (r, ps)
    ∧ control c ∈ r_stack r.
Proof.
  intros Hms. rewrite serve_trace by done.
  destruct (segments (req_path req)) as [segs|]; [|by intros ?%elem_of_nil].
  destruct (find_route ms (req_method req) segs) as [[r ps]|] eqn:Hf;
    [|by intros ?%elem_of_nil].
  intros Hc. exists segs, r, ps. split_and!; try done.
  destruct (run_stack_trace_prefix permitted validates run (r_stack r) ps req w) as [k ->].
  apply elem_of_app. by left.
Qed.

Lemma route_matches_method r m segs ps :
  route_matches r m segs = Some ps -> handles_method (r_method r) m = true.
Proof. unfold route_matches. by destruct (handles_method _ _). Qed.

Lemma group_controllers_on_post_get prefix rt r c :
  (prefix, rt) ∈ mounts -> r ∈ rt -> control (Group c) ∈ r_stack r ->
  r_method r = POST ∨ r_method r = GET.
Proof.
  intros Hm Hr Hc.
  assert (forallb (fun '(_, rt) => forallb (fun r =>
            negb (existsb is_group_control (r_stack r))
            || bool_decide (r_method r = POST) || bool_decide (r_method r = GET)) rt)
          mounts = true) as Hall by (vm_compute; reflexivity).
  rewrite forallb_forall in Hall.
  apply list_elem_of_In, Hall in Hm. rewrite forallb_forall in Hm.
  apply list_elem_of_In, Hm in Hr.
  assert (existsb is_group_control (r_stack r) = true) as Hex.
  { apply existsb_exists. exists (control (Group c)). by rewrite <- list_elem_of_In. }
  rewrite Hex in Hr. cbn in Hr.
  apply orb_prop in Hr as [?%bool_decide_eq_true|?%bool_decide_eq_true]; auto.
Qed.

(** C5. The group router registers three routes, POST /create to
    [create], GET /get to [findAll] and GET /get/:group_id to [findOne],
    and nothing else; a PUT, PATCH or DELETE request falls through the
    group router without running a handler, and no Group controller runs
    for it anywhere in the application. *)
Theorem group_create_list_get_only :
  map (fun r => (r_method r, r_path r, controllers_of (r_stack r))) group_routes.router
    = [ (POST, "/create", [Group group_controller.create]);
        (GET, "/get", [Group group_controller.findAll]);
        (GET, "/get/:group_id", [Group group_controller.findOne]) ]
  ∧ ∀ permitted validates run req w,
      req_method req ∈ [PUT; PATCH; DELETE] ->
      (∀ segs, handle permitted validates run group_routes.router segs req w = ([], Next, w))
      ∧ (∀ c, control (Group c) ∉ (serve permitted validates run mounts req w).1.1).
Proof.
  split; [reflexivity|].
  intros permitted validates run req w Hmeth. split.
  - intros segs. rewrite handle_first_match by reflexivity.
    destruct (first_match group_routes.router (req_method req) segs) as [[r ps]|] eqn:Hf;
      [|done].
    apply first_match_Some in Hf as [Hr Hm%route_matches_method].
    exfalso.
    assert (r_method r = POST ∨ r_method r = GET) as Hpg.
    { unfold group_routes.router in Hr.
      repeat (apply elem_of_cons in Hr as [->|Hr]; [auto|]).
      by apply elem_of_nil in Hr. }
    repeat (apply elem_of_cons in Hmeth as [Hmeth|Hmeth];
            [rewrite Hmeth in Hm; by destruct Hpg as [Hp|Hp]; rewrite Hp in Hm|]).
    by apply elem_of_nil in Hmeth.
  - intros c Hc.
    apply served_by in Hc as (segs & r & ps & _ & Hf & Hin); [|apply mounts_all_answer].
    apply find_route_Some in Hf as (prefix & rt & segs' & Hmt & Hr & _ & Hm%route_matches_method).
    pose proof (group_controllers_on_post_get prefix rt r c Hmt Hr Hin) as Hpg.
    repeat (apply elem_of_cons in Hmeth as [Hmeth|Hmeth];
            [rewrite Hmeth in Hm; by destruct Hpg as [Hp|Hp]; rewrite Hp in Hm|]).
    by apply elem_of_nil in Hmeth.
Qed.

(** ** The two GET routes on /weeklyTask/:id *)

Lemma eq_nocase_via l c :
  eq_nocase l c = true -> ∀ l', eq_nocase l' c = bool_decide (lower l' = lower l).
Proof.
  unfold eq_nocase. intros ->%bool_decide_eq_true. done.
Qed.

(** Whatever the first of the two routes does not match, the second does
    not match either: they have one verb and one pattern. *)
Lemma weeklyTask_routes_same_pattern h1 h2 m segs :
  route_matches (get "/weeklyTask/:weekly_task_id" h1) m segs = None ->
  route_matches (get "/weeklyTask/:workId" h2) m segs = None.
Proof.
  unfold route_matches. cbn [r_method r_path get].
  destruct (handles_method GET m); [|done].
  change (compile_path "/weeklyTask/:weekly_task_id")
    with [Lit "weeklyTask"; Param "weekly_task_id"].
  change (compile_path "/weeklyTask/:workId") with [Lit "weeklyTask"; Param "workId"].
  destruct segs as [|a [|x [|? ?]]]; cbn [match_segs]; try done.
  destruct (eq_nocase "weeklyTask" a); [|done]. by destruct (bool_decide (x = "")).
Qed.

Lemma first_match_work_skips_getWeeklyTask m segs r ps :
  first_match work_routes.router m segs = Some (r, ps) ->
  control (Work work_controller.getWeeklyTask) ∉ r_stack r.
Proof.
  unfold work_routes.router. cbn [first_match].
  do 9 (first_route;
        [intros ?; simplify_eq; apply (bool_decide_unpack _); by vm_compute|]).
  erewrite weeklyTask_routes_same_pattern by eassumption.
  first_route; [|done].
  intros ?; simplify_eq; apply (bool_decide_unpack _); by vm_compute.
Qed.

Lemma other_routers_lack_getWeeklyTask r :
  r ∈ zone_routes.router ∨ r ∈ group_routes.router ->
  control (Work work_controller.getWeeklyTask) ∉ r_stack r.
Proof.
  unfold zone_routes.router, group_routes.router.
  intros [Hr|Hr];
    repeat (apply elem_of_cons in Hr as [->|Hr];
            [apply (bool_decide_unpack _); by vm_compute|]);
    by apply elem_of_nil in Hr.
Qed.

Lemma find_route_mounts m segs r ps :
  find_route mounts m segs = Some (r, ps) ->
  (∃ segs', first_match work_routes.router m segs' = Some (r, ps))
  ∨ r ∈ zone_routes.router ∨ r ∈ group_routes.router.
Proof.
  unfold mounts. cbn [find_route].
  destruct (strip_prefix _ segs) as [s1|].
  { destruct (first_match work_routes.router m s1) as [f|] eqn:Hf.
    - intros [= ->]. left. by exists s1.
    - destruct (strip_prefix _ segs) as [s2|].
      + destruct (first_match zone_routes.router m s2) as [f|] eqn:Hz.
        * intros [= ->]. apply first_match_Some in Hz as [? _]. auto.
        * destruct (strip_prefix _ segs) as [s3|]; [|done].
          destruct (first_match group_routes.router m s3) as [f|] eqn:Hg; [|done].
          intros [= ->]. apply first_match_Some in Hg as [? _]. auto.
      + destruct (strip_prefix _ segs) as [s3|]; [|done].
        destruct (first_match group_routes.router m s3) as [f|] eqn:Hg; [|done].
        intros [= ->]. apply first_match_Some in Hg as [? _]. auto. }
  destruct (strip_prefix _ segs) as [s2|].
  - destruct (first_match zone_routes.router m s2) as [f|] eqn:Hz.
    + intros [= ->]. apply first_match_Some in Hz as [? _]. auto.
    + destruct (strip_prefix _ segs) as [s3|]; [|done].
      destruct (first_match group_routes.router m s3) as [f|] eqn:Hg; [|done].
      intros [= ->]. apply first_match_Some in Hg as [? _]. auto.
  - destruct (strip_prefix _ segs) as [s3|]; [|done].
    destruct (first_match group_routes.router m s3) as [f|] eqn:Hg; [|done].
    intros [= ->]. apply first_match_Some in Hg as [? _]. auto.
Qed.

Lemma find_route_weeklyTask_get segs ps :
  match_segs (compile_path "/structure/work/weeklyTask/:x") segs = Some ps ->
  ∃ x, segs !! 3%nat = Some x ∧
    find_route mounts GET segs =
      Some (get "/weeklyTask/:weekly_task_id"
              [checkPermission "can_view_weeklyTask";
               control (Work work_controller.getWeeklyTaskById)],
            [("weekly_task_id", x)]).
Proof.
  change (compile_path "/structure/work/weeklyTask/:x")
    with [Lit "structure"; Lit "work"; Lit "weeklyTask"; Param "x"].
  destruct segs as [|a [|b [|c [|x [|? ?]]]]]; cbn [match_segs]; try done;
    destruct (eq_nocase "structure" a) eqn:Ha; try done;
    destruct (eq_nocase "work" b) eqn:Hb; try done;
    destruct (eq_nocase "weeklyTask" c) eqn:Hc; try done;
    destruct x as [|ch x]; try done.
  intros _. exists (String ch x). split; [done|].
  unfold mounts. cbn [find_route].
  change (default [] (segments "/structure/work")) with ["structure"; "work"].
  cbn [strip_prefix]. rewrite Ha, Hb.
  unfold work_routes.router. cbn [first_match].
  unfold route_matches, post, get, put, delete_. cbn [r_method r_path handles_method].
  eval_paths. cbn [match_segs].
  rewrite !(eq_nocase_via _ _ Hc).
  vm_compute. reflexivity.
Qed.

(** C9. The work router registers GET /weeklyTask/:weekly_task_id for
    [getWeeklyTaskById] and, after it, GET /weeklyTask/:workId for
    [getWeeklyTask]. For no request at all does [getWeeklyTask] run; a GET
    request on /structure/work/weeklyTask/:x runs the permission check of
    the first of the two routes and then, for a permitted caller,
    [getWeeklyTaskById]. *)
Theorem getWeeklyTask_route_shadowed :
  work_routes.router !! 8%nat =
    Some (get "/weeklyTask/:weekly_task_id"
            [checkPermission "can_view_weeklyTask";
             control (Work work_controller.getWeeklyTaskById)])
  ∧ work_routes.router !! 9%nat =
    Some (get "/weeklyTask/:workId"
            [checkPermission "can_view_weeklyTask";
             control (Work work_controller.getWeeklyTask)])
  ∧ ∀ permitted validates run req w,
      (control (Work work_controller.getWeeklyTask)
         ∉ (serve permitted validates run mounts req w).1.1)
      ∧ ∀ segs ps,
          req_method req = GET ->
          segments (req_path req) = Some segs ->
          match_segs (compile_path "/structure/work/weeklyTask/:x") segs = Some ps ->
          (serve permitted validates run mounts req w).1.1 =
            if permitted req "can_view_weeklyTask"
            then [checkPermission "can_view_weeklyTask";
                  control (Work work_controller.getWeeklyTaskById)]
            else [checkPermission "can_view_weeklyTask"].
Proof.
  split; [reflexivity|]. split; [reflexivity|].
  intros permitted validates run req w. split.
  - intros Hc.
    apply served_by in Hc as (segs & r & ps & _ & Hf & Hin); [|apply mounts_all_answer].
    apply find_route_mounts in Hf as [[segs' Hf]|Hother].
    + by apply first_match_work_skips_getWeeklyTask in Hf.
    + by apply other_routers_lack_getWeeklyTask in Hother.
  - intros segs ps Hmeth Hsegs Hmatch.
    rewrite serve_trace by apply mounts_all_answer.
    rewrite Hsegs, Hmeth.
    apply find_route_weeklyTask_get in Hmatch as (x & _ & ->).
    cbn [r_stack get]. rewrite run_stack_guarded.
    destruct (permitted req "can_view_weeklyTask"); [|done].
    cbn. by destruct (run _ _ req w).
Qed.

(** ** Work lookup and deletion by id *)

Lemma serve_found permitted validates run ms req w segs r ps tr resp w' :
  segments (req_path req) = Some segs ->
  all_answer ms = true ->
  find_route ms (req_method req) segs = Some (r, ps) ->
  run_stack permitted validates run (r_stack r) ps req w = (tr, Send resp, w') ->
  serve permitted validates run ms req w = (tr, resp, w').
Proof.
  intros Hsegs Hms Hf Hrun. unfold serve.
  by rewrite Hsegs, handle_mounts_find_route, Hf, Hrun.
Qed.

Lemma find_route_work_delete segs ps :
  match_segs (compile_path "/structure/work/:workId") segs = Some ps ->
  (∃ workId, ps = [("workId", workId)] ∧ segs !! 2%nat = Some workId)
  ∧ find_route mounts DELETE segs =
      Some (delete_ "/:workId"
              [checkPermission "can_delete_zone_admin";
               control (Work work_controller.deleteOne)], ps).
Proof.
  change (compile_path "/structure/work/:workId")
    with [Lit "structure"; Lit "work"; Param "workId"].
  destruct segs as [|a [|b [|x [|? ?]]]]; cbn [match_segs]; try done;
    destruct (eq_nocase "structure" a) eqn:Ha; try done;
    destruct (eq_nocase "work" b) eqn:Hb; try done;
    destruct x as [|ch x]; try done.
  intros [= <-]. split; [by eexists|].
  unfold mounts. cbn [find_route].
  change (default [] (segments "/structure/work")) with ["structure"; "work"].
  cbn [strip_prefix]. rewrite Ha, Hb.
  vm_compute. reflexivity.
Qed.

Lemma find_route_work_get_one segs ps :
  match_segs (compile_path "/structure/work/get/:workId") segs = Some ps ->
  (∃ workId, ps = [("workId", workId)] ∧ segs !! 3%nat = Some workId)
  ∧ find_route mounts GET segs =
      Some (get "/get/:workId"
              [checkPermission "can_view_work";
               control (Work work_controller.findOne)], ps).
Proof.
  change (compile_path "/structure/work/get/:workId")
    with [Lit "structure"; Lit "work"; Lit "get"; Param "workId"].
  destruct segs as [|a [|b [|c [|x [|? ?]]]]]; cbn [match_segs]; try done;
    destruct (eq_nocase "structure" a) eqn:Ha; try done;
    destruct (eq_nocase "work" b) eqn:Hb; try done;
    destruct (eq_nocase "get" c) eqn:Hc; try done;
    destruct x as [|ch x]; try done.
  intros [= <-]. split; [by eexists|].
  unfold mounts. cbn [find_route].
  change (default [] (segments "/structure/work")) with ["structure"; "work"].
  cbn [strip_prefix]. rewrite Ha, Hb.
  unfold work_routes.router. cbn [first_match].
  unfold route_matches, post, get, put, delete_. cbn [r_method r_path handles_method].
  eval_paths. cbn [match_segs].
  rewrite !(eq_nocase_via _ _ Hc).
  vm_compute. reflexivity.
Qed.

(** C6. [deleteOne] on an id that references no Work answers 404 NotFound,
    which is not a success, and leaves the state as it was; so does a
    DELETE request on /structure/work/:workId of a caller holding
    [can_delete_zone_admin]. *)
Theorem deleteOne_missing_is_not_found workId w :
  Works w !! workId = None ->
  deleteOne workId w = (not_found, w)
  ∧ status not_found = 404%Z
  ∧ succeeded not_found = false
  ∧ ∀ permitted validates unspecified req segs,
      req_method req = DELETE ->
      segments (req_path req) = Some segs ->
      match_segs (compile_path "/structure/work/:workId") segs = Some [("workId", workId)] ->
      permitted req "can_delete_zone_admin" = true ->
      app permitted validates unspecified req w =
        ([checkPermission "can_delete_zone_admin"; control (Work work_controller.deleteOne)],
         not_found, w).
Proof.
  intros Hnone.
  assert (deleteOne workId w = (not_found, w)) as Hdel.
  { unfold deleteOne, Model_destroy. by rewrite Hnone. }
  split_and!; try done.
  intros permitted validates unspecified req segs Hmeth Hsegs Hmatch Hperm.
  apply find_route_work_delete in Hmatch as [_ Hf].
  unfold app. eapply serve_found; [done|apply mounts_all_answer|by rewrite Hmeth|].
  cbn [r_stack delete_]. rewrite run_stack_guarded, Hperm.
  cbn. by rewrite Hdel.
Qed.

(** C8. For an existing Work id, [findOne] answers with the stored record
    and changes nothing, so a second lookup answers the same; and two
    successive GET requests on /structure/work/get/:workId get equal
    responses, the record itself for a caller holding [can_view_work]. *)
Theorem findOne_twice_same workId w r :
  Works w !! workId = Some r ->
  findOne workId w = (ok (Record_ r), w)
  ∧ findOne workId (findOne workId w).2 = findOne workId w
  ∧ ∀ permitted validates unspecified req segs,
      req_method req = GET ->
      segments (req_path req) = Some segs ->
      match_segs (compile_path "/structure/work/get/:workId") segs = Some [("workId", workId)] ->
      let first := app permitted validates unspecified req w in
      let second := app permitted validates unspecified req first.2 in
      first.2 = w ∧ second = first
      ∧ (permitted req "can_view_work" = true -> first.1.2 = ok (Record_ r)).
Proof.
  intros Hsome.
  assert (findOne workId w = (ok (Record_ r), w)) as Hfind.
  { unfold findOne, Model_findByPk. by rewrite Hsome. }
  split_and!; [done|by rewrite Hfind|].
  intros permitted validates unspecified req segs Hmeth Hsegs Hmatch.
  apply find_route_work_get_one in Hmatch as [_ Hf].
  destruct (permitted req "can_view_work") eqn:Hperm.
  - assert (app permitted validates unspecified req w =
              ([checkPermission "can_view_work"; control (Work work_controller.findOne)],
               ok (Record_ r), w)) as Happ.
    { unfold app. eapply serve_found; [done|apply mounts_all_answer|by rewrite Hmeth|].
      cbn [r_stack get]. rewrite run_stack_guarded, Hperm.
      cbn. by rewrite Hfind. }
    cbn zeta. rewrite Happ. cbn [fst snd]. by rewrite Happ.
  - assert (app permitted validates unspecified req w =
              ([checkPermission "can_view_work"], forbidden, w)) as Happ.
    { unfold app. eapply serve_found; [done|apply mounts_all_answer|by rewrite Hmeth|].
      cbn [r_stack get]. by rewrite run_stack_guarded, Hperm. }
    cbn zeta. rewrite Happ. cbn [fst snd]. by rewrite Happ.
Qed.

(** ** Generated identifiers *)
Lemma is_hex_hex_digit n : is_hex (hex_digit n) = true.
Proof.
  unfold hex_digit.
  destruct (n mod 16)%Z as [|p|p]; [reflexivity| |reflexivity].
  do 4 (try destruct p as [p|p|]); reflexivity.
Qed.

Lemma is_uuid_stringify b : is_uuid (uuid_stringify b) = true.
Proof.
  unfold is_uuid, uuid_stringify, hex_byte.
  cbn [is_uuid_from Nat.eqb orb Ascii.eqb Bool.eqb andb].
  rewrite !is_hex_hex_digit. reflexivity.
Qed.

Lemma land_ones_nat r n :
  ∃ k : nat, (k < 2 ^ n)%nat ∧ Z.land r (Z.ones (Z.of_nat n)) = Z.of_nat k.
Proof.
  rewrite Z.land_ones by lia.
  pose proof (Z.mod_pos_bound r (2 ^ Z.of_nat n) ltac:(lia)) as Hb.
  exists (Z.to_nat (r mod 2 ^ Z.of_nat n)). split; [|lia].
  apply Nat2Z.inj_lt. rewrite Z2Nat.id by lia.
  rewrite Nat2Z.inj_pow. lia.
Qed.

Lemma version_digit r :
  hex_digit (Z.shiftr (Z.land (Z.lor (Z.land r 15) 64) 255) 4) = "4"%char.
Proof.
  destruct (land_ones_nat r 4) as (k & Hk & Hr).
  change (Z.ones (Z.of_nat 4)) with 15%Z in Hr. rewrite Hr. clear Hr.
  do 16 (destruct k as [|k]; [reflexivity|]).
  cbn in Hk. lia.
Qed.

Lemma variant_digit r :
  let c := hex_digit (Z.shiftr (Z.land (Z.lor (Z.land r 63) 128) 255) 4) in
  Ascii.eqb c "8" || Ascii.eqb c "9" || Ascii.eqb c "a" || Ascii.eqb c "b" = true.
Proof.
  destruct (land_ones_nat r 6) as (k & Hk & Hr).
  change (Z.ones (Z.of_nat 6)) with 63%Z in Hr. rewrite Hr. clear Hr.
  do 64 (destruct k as [|k]; [reflexivity|]).
  cbn in Hk. lia.
Qed.

Lemma uuid_v4_is_v4 rnds : is_uuid_v4 (uuid_v4 rnds) = true.
Proof.
  unfold is_uuid_v4, uuid_v4. rewrite is_uuid_stringify.
  unfold uuid_stringify, hex_byte. cbn [String.get andb].
  rewrite version_digit. cbn [Ascii.eqb Bool.eqb andb].
  apply variant_digit.
Qed.

Lemma hex_digit_inj x y :
  (0 <= x < 16)%Z -> (0 <= y < 16)%Z -> hex_digit x = hex_digit y -> x = y.
Proof.
  intros Hx Hy.
  assert (∃ i : nat, (i < 16)%nat ∧ x = Z.of_nat i) as (i & Hi & ->)
    by (exists (Z.to_nat x); lia).
  assert (∃ j : nat, (j < 16)%nat ∧ y = Z.of_nat j) as (j & Hj & ->)
    by (exists (Z.to_nat y); lia).
  do 16 (destruct i as [|i]; [do 16 (destruct j as [|j]; [by intros [=]|]); lia|]).
  lia.
Qed.

Lemma hex_byte_inj b1 b2 k1 k2 :
  hex_byte b1 k1 = hex_byte b2 k2 -> Z.land b1 255 = Z.land b2 255 ∧ k1 = k2.
Proof.
  unfold hex_byte. intros [= Hhi Hlo ->]. split; [|done].
  change 255%Z with (Z.ones 8) in *. change 15%Z with (Z.ones 4) in *.
  rewrite !Z.land_ones, !Z.shiftr_div_pow2 in * by lia.
  change (2 ^ 8)%Z with 256%Z in *. change (2 ^ 4)%Z with 16%Z in *.
  apply hex_digit_inj in Hhi; [|Z.div_mod_to_equations; lia..].
  apply hex_digit_inj in Hlo; [|Z.div_mod_to_equations; lia..].
  Z.div_mod_to_equations. lia.
Qed.

Lemma hex_byte_ext b1 b2 k1 k2 :
  Z.land b1 255 = Z.land b2 255 -> k1 = k2 -> hex_byte b1 k1 = hex_byte b2 k2.
Proof.
  intros Hb ->. unfold hex_byte. rewrite Hb. do 2 f_equal.
  change 255%Z with (Z.ones 8) in Hb. change 15%Z with (Z.ones 4).
  rewrite !Z.land_ones in * by lia.
  change (2 ^ 8)%Z with 256%Z in *. change (2 ^ 4)%Z with 16%Z in *.
  f_equal. Z.div_mod_to_equations. lia.
Qed.

Lemma string_tail_inj c (a b : string) : String c a = String c b -> a = b.
Proof. by intros [=]. Qed.

(** The text of a UUID determines its sixteen bytes, and is determined by
    them. *)
Lemma uuid_stringify_inj f g :
  uuid_stringify f = uuid_stringify g <->
  ∀ i, (i < 16)%nat -> Z.land (f i) 255 = Z.land (g i) 255.
Proof.
  unfold uuid_stringify. split.
  - intros H.
    repeat match goal with
           | H : hex_byte _ _ = hex_byte _ _ |- _ => apply hex_byte_inj in H as [? H]
           | H : String "-" _ = String "-" _ |- _ => apply string_tail_inj in H
           end.
    intros i Hi. do 16 (destruct i as [|i]; [assumption|]). lia.
  - intros H.
    repeat first [apply hex_byte_ext; [apply H; lia|] | f_equal].
Qed.

Lemma version_byte r1 r2 :
  Z.land (Z.lor (Z.land r1 15) 64) 255 = Z.land (Z.lor (Z.land r2 15) 64) 255
  <-> Z.land r1 15 = Z.land r2 15.
Proof.
  split; [|by intros ->].
  destruct (land_ones_nat r1 4) as (k1 & Hk1 & Hr1).
  destruct (land_ones_nat r2 4) as (k2 & Hk2 & Hr2).
  change (Z.ones (Z.of_nat 4)) with 15%Z in Hr1, Hr2. rewrite Hr1, Hr2.
  assert (∀ k, (k < 2 ^ 4)%nat ->
            Z.land (Z.lor (Z.of_nat k) 64) 255 = (Z.of_nat k + 64)%Z) as Hb.
  { intros k Hk. do 16 (destruct k as [|k]; [reflexivity|]). cbn in Hk. lia. }
  rewrite !Hb by done. lia.
Qed.

Lemma variant_byte r1 r2 :
  Z.land (Z.lor (Z.land r1 63) 128) 255 = Z.land (Z.lor (Z.land r2 63) 128) 255
  <-> Z.land r1 63 = Z.land r2 63.
Proof.
  split; [|by intros ->].
  destruct (land_ones_nat r1 6) as (k1 & Hk1 & Hr1).
  destruct (land_ones_nat r2 6) as (k2 & Hk2 & Hr2).
  change (Z.ones (Z.of_nat 6)) with 63%Z in Hr1, Hr2. rewrite Hr1, Hr2.
  assert (∀ k, (k < 2 ^ 6)%nat ->
            Z.land (Z.lor (Z.of_nat k) 128) 255 = (Z.of_nat k + 128)%Z) as Hb.
  { intros k Hk. do 64 (destruct k as [|k]; [reflexivity|]). cbn in Hk. lia. }
  rewrite !Hb by done. lia.
Qed.

(** Two draws give the same identifier exactly when they agree on the
    122 bits the identifier takes from them. *)
Lemma uuid_v4_inj b1 b2 :
  uuid_v4 b1 = uuid_v4 b2 <->
  ∀ i, (i < 16)%nat ->
    Z.land (nth i b1 0%Z) (random_bits i) = Z.land (nth i b2 0%Z) (random_bits i).
Proof.
  unfold uuid_v4. rewrite uuid_stringify_inj.
  split; intros H i Hi; specialize (H i Hi);
    do 16 (destruct i as [|i];
           [first [exact H | by apply version_byte | by apply variant_byte]|]);
    lia.
Qed.

(** ** Stored rows keep to the schema *)

Lemma store_value_ok a v v' : store_value a v = Some v' -> column_ok a v' = true.
Proof.
  unfold store_value, cast, column_ok.
  destruct v as [|s|n|t].
  - destruct (allowNull a); [|done]. by intros [= <-].
  - destruct (has_type (type a) (VStr s)) eqn:Ht.
    + by intros [= <-].
    + destruct (type a); try done. destruct (parse_int s); [|done]. by intros [= <-].
  - destruct (has_type (type a) (VNum n)) eqn:Ht; [by intros [= <-]|].
    by destruct (type a).
  - destruct (has_type (type a) (VDate t)) eqn:Ht; [by intros [= <-]|].
    by destruct (type a).
Qed.

Lemma store_row_fields m r fields :
  store_row m r = Some fields ->
  fields.*1 = m.*1
  ∧ ∀ name a, (name, a) ∈ m ->
      ∃ v', (name, v') ∈ fields ∧ store_value a (default VNull (r !! name)) = Some v'.
Proof.
  revert fields. induction m as [|[name0 a0] m IH]; intros fields.
  - intros [= <-]. split; [done|]. by intros ?? ?%elem_of_nil.
  - cbn [store_row].
    destruct (store_value a0 _) as [v0|] eqn:Hv; [|done].
    destruct (store_row m r) as [fs|]; [|done].
    intros [= <-]. destruct (IH fs eq_refl) as [Hnames Hall].
    split; [cbn; by rewrite Hnames|].
    intros name a [[= -> ->]|Hin]%elem_of_cons.
    + exists v0. split; [apply list_elem_of_here | done].
    + destruct (Hall name a Hin) as (v' & ? & ?).
      exists v'. split; [by apply list_elem_of_further | done].
Qed.

Lemma persist_inr m r r' :
  NoDup m.*1 ->
  persist m r = inr r' ->
  ∀ name a, (name, a) ∈ m ->
    ∃ v', r' !! name = Some v'
          ∧ store_value a (default VNull (r !! name)) = Some v'
          ∧ (allowNull a = false -> v' ≠ VNull).
Proof.
  intros Hnd. unfold persist.
  destruct (not_null_ok m r) eqn:Hnn; [|done].
  destruct (store_row m r) as [fields|] eqn:Hs; [|done].
  intros [= <-] name a Hin.
  apply store_row_fields in Hs as [Hnames Hall].
  destruct (Hall name a Hin) as (v' & Hv' & Hst).
  exists v'. split_and!; [|done|].
  - apply elem_of_list_to_map_1; [by rewrite Hnames | done].
  - intros Han ->. apply store_value_ok in Hst. cbn in Hst. congruence.
Qed.

Lemma persist_row_ok m r r' :
  NoDup m.*1 -> persist m r = inr r' -> row_ok m r'.
Proof.
  intros Hnd Hp name a Hin.
  destruct (persist_inr m r r' Hnd Hp name a Hin) as (v' & ? & ?%store_value_ok & _).
  by exists v'.
Qed.

Lemma model_attribute_unique (m : Model) name a a' :
  NoDup m.*1 -> (name, a) ∈ m -> (name, a') ∈ m -> a = a'.
Proof.
  intros Hnd H1 H2.
  apply (elem_of_list_to_map_1 (M := gmap string)) in H1; [|done].
  apply (elem_of_list_to_map_1 (M := gmap string)) in H2; [|done].
  congruence.
Qed.

Lemma build_fields rb m values now n fields n' :
  build rb m values now n = (fields, n') ->
  fields.*1 = m.*1
  ∧ ∀ name a v, (name, a) ∈ m -> values !! name = Some v -> (name, v) ∈ fields.
Proof.
  revert n fields n'. induction m as [|[name0 a0] m IH]; intros n fields n'.
  { intros [= <- <-]. split; [done|]. by intros ??? ?%elem_of_nil. }
  cbn [build].
  destruct (values !! name0) as [v0|] eqn:Hv0; [|destruct (defaultValue a0) as [|lit| |]];
    (destruct (build rb m values now _) as [fs k'] eqn:Hfs;
     intros [= <- <-]; destruct (IH _ _ _ Hfs) as [Hnames Hall];
     split; [cbn; by rewrite Hnames|];
     intros name a v [[= -> ->]|Hin]%elem_of_cons Hval;
     [simplify_eq; apply list_elem_of_here
     |apply list_elem_of_further; by eapply Hall]).
Qed.

Lemma Model_create_inr rb m tbl values now n r tbl' n' :
  Model_create rb m tbl values now n = (inr r, tbl', n') ->
  ∃ fields k,
    build rb m values now n = (fields, n')
    ∧ persist m (stamp now (list_to_map fields)) = inr r
    ∧ key_of m r = Some k ∧ tbl !! k = None ∧ tbl' = <[k := r]> tbl.
Proof.
  unfold Model_create.
  destruct (build rb m values now n) as [fields k'] eqn:Hb.
  destruct (persist m (stamp now (list_to_map fields))) as [e|r0] eqn:Hp; [done|].
  destruct (key_of m r0) as [k|] eqn:Hk; [|done].
  destruct (tbl !! k) eqn:Hl; [done|].
  intros [= <- <- <-]. by exists fields, k.
Qed.

Lemma Model_create_inl rb m tbl values now n e tbl' n' :
  Model_create rb m tbl values now n = (inl e, tbl', n') -> tbl' = tbl.
Proof.
  unfold Model_create.
  destruct (build rb m values now n) as [fields k'].
  destruct (persist m (stamp now (list_to_map fields))) as [e0|r0]; [by intros [= _ <- _]|].
  destruct (key_of m r0) as [k|]; [|by intros [= _ <- _]].
  by destruct (tbl !! k); intros [= <-].
Qed.

(** Outside the two timestamps [stamp] leaves a row as it is. *)
Lemma stamp_lookup now (r : row) name :
  name ≠ "createdAt" -> name ≠ "updatedAt" -> stamp now r !! name = r !! name.
Proof.
  intros Hc Hu. unfold stamp. rewrite lookup_insert_ne by done.
  destruct (falsy _); [by rewrite lookup_insert_ne|done].
Qed.

Lemma store_patch_fields m patch fields :
  store_patch m patch = Some fields ->
  (∀ name v', (name, v') ∈ fields ->
     ∃ a v, (name, a) ∈ m ∧ patch !! name = Some v ∧ store_value a v = Some v')
  ∧ (∀ name a v, (name, a) ∈ m -> patch !! name = Some v ->
       ∃ v', (name, v') ∈ fields ∧ store_value a v = Some v')
  ∧ fields.*1 `sublist_of` m.*1.
Proof.
  revert fields. induction m as [|[name0 a0] m IH]; intros fields.
  { intros [= <-]. split_and!; [by intros ?? ?%elem_of_nil|by intros ??? ?%elem_of_nil|done]. }
  cbn [store_patch].
  destruct (patch !! name0) as [v0|] eqn:Hv0.
  - destruct (store_value a0 v0) as [v0'|] eqn:Hst; [|done].
    destruct (store_patch m patch) as [fs|]; [|done].
    intros [= <-]. destruct (IH _ eq_refl) as (H1 & H2 & H3). split_and!.
    + intros name v' [[= -> ->]|Hin]%elem_of_cons.
      * exists a0, v0. split_and!; try done. apply list_elem_of_here.
      * destruct (H1 name v' Hin) as (a & v & ? & ?).
        exists a, v. split; [by apply list_elem_of_further | done].
    + intros name a v [[= -> ->]|Hin]%elem_of_cons Hval.
      * exists v0'. split; [apply list_elem_of_here | congruence].
      * destruct (H2 name a v Hin Hval) as (v' & ? & ?).
        exists v'. split; [by apply list_elem_of_further | done].
    + cbn. by apply sublist_skip.
  - intros Hs. destruct (IH _ Hs) as (H1 & H2 & H3). split_and!.
    + intros name v' Hin. destruct (H1 name v' Hin) as (a & v & ? & ?).
      exists a, v. split; [by apply list_elem_of_further | done].
    + intros name a v [[= -> ->]|Hin]%elem_of_cons Hval; [congruence|].
      by eapply H2.
    + cbn. by apply sublist_cons.
Qed.

(** What an update can do to a table: nothing, or write the one row it
    matched, in place or under the new key the patch gives it. *)
Lemma Model_update_cases m tbl k cond patch now res tbl' :
  Model_update m tbl k cond patch now = (res, tbl') ->
  tbl' = tbl
  ∨ ∃ r fields k',
      tbl !! k = Some r ∧ cond r = true
      ∧ store_patch m (<["updatedAt" := VDate now]> patch) = Some fields
      ∧ updated_key m (<["updatedAt" := VDate now]> patch) (list_to_map fields ∪ r) k
          = Some k'
      ∧ res = inr 1%nat
      ∧ (k' = k ∨ tbl !! k' = None)
      ∧ tbl' = <[k' := list_to_map fields ∪ r]> (delete k tbl).
Proof.
  unfold Model_update.
  destruct (patch_not_null_ok m _); [|intros [= _ <-]; by left].
  destruct (store_patch m _) as [fields|] eqn:Hs; [|intros [= _ <-]; by left].
  destruct (tbl !! k) as [r|] eqn:Hl; [|intros [= _ <-]; by left].
  destruct (cond r) eqn:Hc; [|intros [= _ <-]; by left].
  cbn zeta. destruct (updated_key m _ _ k) as [k'|] eqn:Hk; [|intros [= _ <-]; by left].
  case_bool_decide as Hkk.
  - subst k'. intros [= <- <-]. right. exists r, fields, k.
    split_and!; try done; [by left|]. by rewrite insert_delete_eq.
  - destruct (tbl !! k') eqn:Hl'; [intros [= _ <-]; by left|].
    intros [= <- <-]. right. exists r, fields, k'. split_and!; try done. by right.
Qed.

Lemma primary_key_Some m pk :
  primary_key m = Some pk -> ∃ a, (pk, a) ∈ m ∧ primaryKey a = true.
Proof.
  induction m as [|[name a] m IH]; [done|]. cbn.
  destruct (primaryKey a) eqn:Hpk.
  - intros [= ->]. exists a. split; [apply list_elem_of_here | done].
  - intros H. destruct (IH H) as (a' & ? & ?).
    exists a'. split; [by apply list_elem_of_further | done].
Qed.

Section TableFacts.

Variable m : Model.
Hypothesis m_names : NoDup m.*1.

Lemma patched_lookup (fields : list (string * value)) (r : row) name :
  (list_to_map fields ∪ r) !! name =
    match (list_to_map fields : row) !! name with
    | Some v' => Some v'
    | None => r !! name
    end.
Proof.
  destruct ((list_to_map fields : row) !! name) as [v'|] eqn:Hl.
  - by apply lookup_union_Some_l.
  - by apply lookup_union_r.
Qed.

Lemma patched_row_ok patch fields r :
  store_patch m patch = Some fields -> row_ok m r -> row_ok m (list_to_map fields ∪ r).
Proof.
  intros Hs Hr name a Hin. rewrite patched_lookup.
  destruct ((list_to_map fields : row) !! name) as [v'|] eqn:Hl; [|by apply Hr].
  apply elem_of_list_to_map_2 in Hl.
  destruct (store_patch_fields _ _ _ Hs) as (H1 & _ & _).
  destruct (H1 name v' Hl) as (a' & v & Hin' & _ & Hst).
  rewrite (model_attribute_unique m name a a') by done.
  exists v'. split; [done|]. by eapply store_value_ok.
Qed.

(** A patch that does not name an attribute leaves it as it was. *)
Lemma patched_other patch fields (r : row) name :
  store_patch m patch = Some fields -> patch !! name = None ->
  (list_to_map fields ∪ r) !! name = r !! name.
Proof.
  intros Hs Hnone. rewrite patched_lookup.
  destruct ((list_to_map fields : row) !! name) as [v'|] eqn:Hl; [|done].
  apply elem_of_list_to_map_2 in Hl.
  destruct (store_patch_fields _ _ _ Hs) as (H1 & _ & _).
  destruct (H1 name v' Hl) as (a' & v & _ & Hv & _). congruence.
Qed.

Lemma updated_key_of patch fields r k k' :
  store_patch m patch = Some fields ->
  key_of m r = Some k ->
  updated_key m patch (list_to_map fields ∪ r) k = Some k' ->
  key_of m (list_to_map fields ∪ r) = Some k'.
Proof.
  intros Hs Hkey. unfold updated_key, key_of in *.
  destruct (primary_key m) as [pk|] eqn:Hpk; [|done].
  case_bool_decide as Hnamed; [done|].
  intros [= <-]. rewrite (patched_other patch) by (done || by apply eq_None_not_Some).
  done.
Qed.

Lemma persisted_table_ok tbl : persisted m tbl -> table_ok m tbl.
Proof.
  induction 1 as [|rb tbl values now n res tbl' n' _ IH Hc
                  |tbl k cond patch now res tbl' _ IH Hu
                  |tbl k n tbl' _ IH Hd].
  - intros k r. by rewrite lookup_empty.
  - destruct res as [e|r].
    + by apply Model_create_inl in Hc as ->.
    + apply Model_create_inr in Hc as (fields & k & _ & Hp & Hk & Hfresh & ->).
      intros k0 r0. rewrite lookup_insert.
      case_decide as Hkk; [|by apply IH].
      intros [= <-]. subst k0. split; [by eapply persist_row_ok | done].
  - apply Model_update_cases in Hu
      as [->|(r & fields & k' & Hl & _ & Hs & Hk' & _ & _ & ->)]; [done|].
    destruct (IH k r Hl) as [Hok Hkey].
    intros k0 r0. rewrite lookup_insert.
    case_decide as Hkk.
    + intros [= <-]. subst k0.
      split; [by eapply patched_row_ok | by eapply updated_key_of].
    + intros [_ Hl0]%lookup_delete_Some. by apply IH.
  - unfold Model_destroy in Hd.
    destruct (tbl !! k); injection Hd as <- <-; [|done].
    intros k0 r0 [_ Hl]%lookup_delete_Some. by apply IH.
Qed.

End TableFacts.

Lemma WeeklyTask_names : NoDup weeklyTask.WeeklyTask.*1.
Proof. apply (bool_decide_unpack _). by vm_compute. Qed.

Lemma is_uuid_not_int s : is_uuid s = true -> parse_int s = None.
Proof.
  unfold is_uuid.
  destruct s as [|c0 [|c1 [|c2 [|c3 [|c4 [|c5 [|c6 [|c7 [|c8 s]]]]]]]]];
    cbn [is_uuid_from Nat.eqb orb]; intros H;
    repeat (apply andb_prop in H as [? H]); try done.
  match goal with
  | Hd : Ascii.eqb _ "-" = true |- _ => apply Ascii.eqb_eq in Hd as ->
  end.
  unfold parse_int.
  assert (Ascii.eqb c0 "-" = false) as ->.
  { destruct (Ascii.eqb_spec c0 "-") as [->|]; done. }
  cbn [all_digits]. 
  replace (nat_of_ascii "-") with 45%nat by reflexivity.
  cbn [Nat.leb andb]. by rewrite !andb_false_r.
Qed.

Lemma WeeklyTask_row_columns r :
  row_ok weeklyTask.WeeklyTask r ->
  (∃ s, r !! "weekly_task_id" = Some (VStr s) ∧ is_uuid s = true)
  ∧ (∃ s, r !! "description" = Some (VStr s))
  ∧ (∃ s, r !! "status" = Some (VStr s))
  ∧ (∃ s, r !! "workId" = Some (VStr s) ∧ is_uuid s = true)
  ∧ (∃ n, r !! "weekNumber" = Some (VNum n))
  ∧ (∃ n, r !! "sectorId" = Some (VNum n))
  ∧ (r !! "pickedBy" = Some VNull
     ∨ ∃ s, r !! "pickedBy" = Some (VStr s) ∧ is_uuid s = true)
  ∧ (∃ t, r !! "createdAt" = Some (VDate t))
  ∧ (∃ t, r !! "updatedAt" = Some (VDate t)).
Proof.
  intros Hr.
  edestruct (Hr "weekly_task_id") as (v0 & H0 & Hok0); [in_model|].
  edestruct (Hr "description") as (v1 & H1 & Hok1); [in_model|].
  edestruct (Hr "status") as (v2 & H2 & Hok2); [in_model|].
  edestruct (Hr "workId") as (v3 & H3 & Hok3); [in_model|].
  edestruct (Hr "weekNumber") as (v4 & H4 & Hok4); [in_model|].
  edestruct (Hr "sectorId") as (v5 & H5 & Hok5); [in_model|].
  edestruct (Hr "pickedBy") as (v6 & H6 & Hok6); [in_model|].
  edestruct (Hr "createdAt") as (v7 & H7 & Hok7); [in_model|].
  edestruct (Hr "updatedAt") as (v8 & H8 & Hok8); [in_model|].
  destruct v0; try done. destruct v1; try done. destruct v2; try done.
  destruct v3; try done. destruct v4; try done. destruct v5; try done.
  destruct v7; try done. destruct v8; try done.
  split_and!; eauto.
  destruct v6; try done; eauto.
Qed.

Lemma create_stores_given rb tbl values now n r tbl' n' name a v :
  (name, a) ∈ weeklyTask.WeeklyTask ->
  name ≠ "createdAt" -> name ≠ "updatedAt" ->
  values !! name = Some v ->
  Model_create rb weeklyTask.WeeklyTask tbl values now n = (inr r, tbl', n') ->
  ∃ v', r !! name = Some v' ∧ store_value a v = Some v'.
Proof.
  intros Hin Hnc Hnu Hval (fields & k & Hb & Hp & _)%Model_create_inr.
  apply build_fields in Hb as [Hnames Hall].
  destruct (persist_inr _ _ _ WeeklyTask_names Hp name a Hin) as (v' & Hv' & Hst & _).
  exists v'. split; [done|]. rewrite stamp_lookup in Hst by done.
  rewrite (elem_of_list_to_map_1 (M := gmap string) fields name v) in Hst; [done| |].
  - rewrite Hnames. apply WeeklyTask_names.
  - by eapply Hall.
Qed.

(** C10. In the WeeklyTask model pickedBy is the only attribute that may
    be null. Every row of a table the model's operations produced has a
    string description and status, a UUID workId, integer weekNumber and
    sectorId, dates createdAt and updatedAt, and a pickedBy that is null
    or a UUID. A string offered as sectorId or weekNumber is never stored
    as that string: the row is refused, or holds the integer the string
    denotes; a UUID string is always refused. *)
Theorem WeeklyTask_rows_keep_schema :
  (∀ name a, (name, a) ∈ weeklyTask.WeeklyTask -> allowNull a = true ↔ name = "pickedBy")
  ∧ (∀ tbl k r, persisted weeklyTask.WeeklyTask tbl -> tbl !! k = Some r ->
       (∃ s, r !! "description" = Some (VStr s))
       ∧ (∃ s, r !! "status" = Some (VStr s))
       ∧ (∃ s, r !! "workId" = Some (VStr s) ∧ is_uuid s = true)
       ∧ (∃ n, r !! "weekNumber" = Some (VNum n))
       ∧ (∃ n, r !! "sectorId" = Some (VNum n))
       ∧ (r !! "pickedBy" = Some VNull
          ∨ ∃ s, r !! "pickedBy" = Some (VStr s) ∧ is_uuid s = true)
       ∧ (∃ t, r !! "createdAt" = Some (VDate t))
       ∧ (∃ t, r !! "updatedAt" = Some (VDate t)))
  ∧ (∀ rb tbl values now n name s,
       name = "sectorId" ∨ name = "weekNumber" ->
       values !! name = Some (VStr s) ->
       match Model_create rb weeklyTask.WeeklyTask tbl values now n with
       | (inr r, _, _) =>
           r !! name ≠ Some (VStr s)
           ∧ ∃ z, parse_int s = Some z ∧ r !! name = Some (VNum z)
       | (inl _, tbl', _) => tbl' = tbl
       end)
  ∧ (∀ rb tbl values now n name s,
       name = "sectorId" ∨ name = "weekNumber" ->
       values !! name = Some (VStr s) ->
       is_uuid s = true ->
       ∃ e n', Model_create rb weeklyTask.WeeklyTask tbl values now n = (inl e, tbl, n')).
Proof.
  assert (∀ rb tbl values now n name s r tbl' n',
            name = "sectorId" ∨ name = "weekNumber" ->
            values !! name = Some (VStr s) ->
            Model_create rb weeklyTask.WeeklyTask tbl values now n = (inr r, tbl', n') ->
            ∃ z, parse_int s = Some z ∧ r !! name = Some (VNum z)) as Hint.
  { intros rb tbl values now n name s r tbl' n' Hname Hval Hc.
    destruct Hname as [-> | ->];
      (lazymatch type of Hval with
       | _ !! ?name = _ =>
           edestruct (create_stores_given rb tbl values now n r tbl' n' name)
             as (v' & Hv' & Hst); [in_model|done|done|exact Hval|exact Hc|]
       end);
      cbn in Hst; unfold cast in Hst; cbn in Hst;
      (destruct (parse_int s) as [z|]; [|done]); injection Hst as <-; eauto. }
  split_and!.
  - intros name a Hin. unfold weeklyTask.WeeklyTask in Hin.
    repeat (apply elem_of_cons in Hin as [[= -> ->]|Hin]; [by split|]).
    by apply elem_of_nil in Hin.
  - intros tbl k r Hp Hl.
    apply (persisted_table_ok _ WeeklyTask_names) in Hp.
    destruct (Hp k r Hl) as [Hok _].
    destruct (WeeklyTask_row_columns r Hok) as (_ & Hcols). exact Hcols.
  - intros rb tbl values now n name s Hname Hval.
    destruct (Model_create rb weeklyTask.WeeklyTask tbl values now n) as [[[e|r] tbl'] n'] eqn:Hc.
    + by eapply Model_create_inl.
    + destruct (Hint _ _ _ _ _ _ _ _ _ _ Hname Hval Hc) as (z & Hz & Hr).
      split; [by rewrite Hr | eauto].
  - intros rb tbl values now n name s Hname Hval Hu.
    destruct (Model_create rb weeklyTask.WeeklyTask tbl values now n) as [[[e|r] tbl'] n'] eqn:Hc.
    + apply Model_create_inl in Hc as ->. eauto.
    + destruct (Hint _ _ _ _ _ _ _ _ _ _ Hname Hval Hc) as (z & Hz & _).
      rewrite is_uuid_not_int in Hz; done.
Qed.

Lemma build_draws rb m values now n :
  forallb (fun '(_, a) => negb (draws_uuid a)) m = true ->
  (build rb m values now n).2 = n.
Proof.
  induction m as [|[name a] m IH]; [done|]. cbn [forallb build].
  intros [Ha Hm]%andb_prop. specialize (IH Hm). unfold draws_uuid in Ha.
  destruct (values !! name); [|destruct (defaultValue a); try done];
    by destruct (build rb m values now n).
Qed.

Lemma build_cons rb name a m values now n :
  build rb ((name, a) :: m) values now n =
    match values !! name with
    | Some v => let '(fields, n') := build rb m values now n in ((name, v) :: fields, n')
    | None =>
        match defaultValue a with
        | NoDefault =>
            let '(fields, n') := build rb m values now n in ((name, VNull) :: fields, n')
        | Literal v =>
            let '(fields, n') := build rb m values now n in ((name, v) :: fields, n')
        | UUIDV4 =>
            let '(fields, n') := build rb m values now (S n) in
            ((name, VStr (uuid_v4 (rb n))) :: fields, n')
        | NOW =>
            let '(fields, n') := build rb m values now n in ((name, VDate now) :: fields, n')
        end
    end.
Proof. reflexivity. Qed.

Lemma build_WeeklyTask_id rb values now n :
  values !! "weekly_task_id" = None ->
  ∃ rest,
    build rb weeklyTask.WeeklyTask values now n
      = (("weekly_task_id", VStr (uuid_v4 (rb n))) :: rest, S n).
Proof.
  intros Hnone. unfold weeklyTask.WeeklyTask. rewrite build_cons, Hnone. cbn [defaultValue].
  match goal with
  | |- context [build rb ?m values now (S n)] =>
      assert (forallb (fun '(_, a) => negb (draws_uuid a)) m = true) as Hd
        by reflexivity;
      apply (build_draws rb m values now (S n)) in Hd;
      destruct (build rb m values now (S n)) as [rest k]
  end.
  cbn in Hd. subst k. by exists rest.
Qed.

Lemma WeeklyTask_key r k :
  key_of weeklyTask.WeeklyTask r = Some k <-> r !! "weekly_task_id" = Some (VStr k).
Proof.
  unfold key_of.
  assert (primary_key weeklyTask.WeeklyTask = Some "weekly_task_id") as -> by reflexivity.
  destruct (r !! "weekly_task_id") as [[]|]; naive_solver.
Qed.

Lemma next_ids_S rb n count :
  next_ids rb n (S count) = uuid_v4 (rb n) :: next_ids rb (S n) count.
Proof. reflexivity. Qed.

Import weeklyTask.

Lemma Model_create_draws rb m tbl values now n :
  (Model_create rb m tbl values now n).2 = (build rb m values now n).2.
Proof.
  unfold Model_create. destruct (build rb m values now n) as [fields n'].
  destruct (persist m (stamp now (list_to_map fields))) as [e|r]; [done|].
  destruct (key_of m r) as [k|]; [|done]. by destruct (tbl !! k).
Qed.

(** The payload decides whether a creation is refused before the insert;
    the table decides only whether the key is taken. *)
Lemma Model_create_same_payload rb tbl tbl0 values now n :
  match Model_create rb WeeklyTask tbl0 values now n with
  | (inr r, _, n0) =>
      ∃ k, r !! "weekly_task_id" = Some (VStr k)
           ∧ Model_create rb WeeklyTask tbl values now n =
               match tbl !! k with
               | Some _ => (inl UniqueConstraintError, tbl, n0)
               | None => (inr r, <[k := r]> tbl, n0)
               end
  | _ => True
  end.
Proof.
  unfold Model_create.
  destruct (build rb WeeklyTask values now n) as [fields n0].
  destruct (persist WeeklyTask (stamp now (list_to_map fields))) as [e|r]; [done|].
  destruct (key_of WeeklyTask r) as [k|] eqn:Hk; [|done].
  destruct (tbl0 !! k); [done|].
  exists k. split; [by apply WeeklyTask_key|]. done.
Qed.

Lemma WeeklyTask_create_Model rb values w res w' :
  WeeklyTask_create rb values w = (res, w') ->
  Model_create rb WeeklyTask (WeeklyTasks w) values (clock w) (draws w)
    = (res, WeeklyTasks w', draws w').
Proof.
  unfold WeeklyTask_create.
  destruct (Model_create rb WeeklyTask (WeeklyTasks w) values (clock w) (draws w))
    as [[res0 tbl] n].
  by intros [= -> <-].
Qed.

Lemma Model_create_generates rb tbl values now n r tbl' n' :
  values !! "weekly_task_id" = None ->
  Model_create rb WeeklyTask tbl values now n = (inr r, tbl', n') ->
  let tid := uuid_v4 (rb n) in
  r !! "weekly_task_id" = Some (VStr tid)
  ∧ n' = S n ∧ tbl !! tid = None ∧ tbl' = <[tid := r]> tbl.
Proof.
  intros Hnone Hc.
  apply Model_create_inr in Hc as (fields & k & Hb & Hp & Hk & Hfresh & ->).
  destruct (build_WeeklyTask_id rb values now n Hnone) as [rest Hb'].
  rewrite Hb' in Hb. injection Hb as <- <-.
  edestruct (persist_inr _ _ _ WeeklyTask_names Hp "weekly_task_id")
    as (v' & Hv' & Hst & _); [in_model|].
  rewrite stamp_lookup, list_to_map_cons, lookup_insert_eq in Hst by done.
  pose proof (uuid_v4_is_v4 (rb n)) as Hv4.
  assert (is_uuid (uuid_v4 (rb n)) = true) as Hu.
  { unfold is_uuid_v4 in Hv4. by do 2 apply andb_prop in Hv4 as [Hv4 _]. }
  cbn zeta. set (tid := uuid_v4 (rb n)) in *. clearbody tid.
  cbn in Hst. unfold cast in Hst. cbn in Hst. rewrite Hu in Hst.
  injection Hst as <-.
  apply WeeklyTask_key in Hk. rewrite Hv' in Hk. injection Hk as <-.
  done.
Qed.

Lemma WeeklyTask_create_own_id rb tbl values now n :
  values !! "weekly_task_id" = None ->
  let tid := uuid_v4 (rb n) in
  match Model_create rb WeeklyTask tbl values now n with
  | (inr r, tbl', n') =>
      n' = S n ∧ r !! "weekly_task_id" = Some (VStr tid)
      ∧ tbl !! tid = None ∧ tbl' = <[tid := r]> tbl
  | (inl _, tbl', n') => n' = S n ∧ tbl' = tbl
  end.
Proof.
  intros Hnone. cbn zeta.
  destruct (Model_create rb WeeklyTask tbl values now n) as [[[e|r] tbl'] n'] eqn:Hc.
  - split; [|by eapply Model_create_inl].
    destruct (build_WeeklyTask_id rb values now n Hnone) as [rest Hb].
    pose proof (Model_create_draws rb WeeklyTask tbl values now n) as Hd.
    by rewrite Hc, Hb in Hd.
  - by destruct (Model_create_generates _ _ _ _ _ _ _ _ Hnone Hc) as (? & ? & ? & ?).
Qed.

Lemma WeeklyTask_create_generates rb values w r w' :
  values !! "weekly_task_id" = None ->
  WeeklyTask_create rb values w = (inr r, w') ->
  let tid := uuid_v4 (rb (draws w)) in
  r !! "weekly_task_id" = Some (VStr tid)
  ∧ is_uuid_v4 tid = true
  ∧ draws w' = S (draws w)
  ∧ WeeklyTasks w !! tid = None
  ∧ WeeklyTasks w' = <[tid := r]> (WeeklyTasks w).
Proof.
  intros Hnone Hc. apply WeeklyTask_create_Model in Hc.
  destruct (Model_create_generates _ _ _ _ _ _ _ _ Hnone Hc) as (? & ? & ? & ?).
  cbn zeta. split_and!; try done. apply uuid_v4_is_v4.
Qed.

Lemma weekly_task_values_no_id workId description sectorId weekNumber :
  weekly_task_values workId description sectorId weekNumber !! "weekly_task_id" = None.
Proof. unfold weekly_task_values. by map_lookups. Qed.

Lemma create_weekly_tasks_ids rb workId description sectorIds weekNumber w rs w' :
  create_weekly_tasks rb workId description sectorIds weekNumber w = (inr rs, w') ->
  draws w' = (draws w + length sectorIds)%nat
  ∧ (∀ k r, WeeklyTasks w !! k = Some r -> WeeklyTasks w' !! k = Some r)
  ∧ Forall2 (fun tid r =>
       r !! "weekly_task_id" = Some (VStr tid)
       ∧ is_uuid_v4 tid = true
       ∧ WeeklyTasks w !! tid = None
       ∧ WeeklyTasks w' !! tid = Some r)
      (next_ids rb (draws w) (length sectorIds)) rs
  ∧ NoDup (next_ids rb (draws w) (length sectorIds)).
Proof.
  revert w rs w'. induction sectorIds as [|sid rest IH]; intros w rs w'.
  { intros [= <- <-]. cbn. split_and!; try done; first [lia | constructor]. }
  cbn [create_weekly_tasks length].
  destruct (WeeklyTask_create rb _ w) as [[e|r] w1] eqn:Hc; [done|].
  destruct (create_weekly_tasks rb workId description rest weekNumber w1)
    as [[e|rs'] w''] eqn:Hloop; [done|].
  intros [= <- <-].
  apply WeeklyTask_create_generates in Hc as (Hid & Hv4 & Hdraws & Hfresh & Htbl);
    [|apply weekly_task_values_no_id].
  cbn zeta in *. set (tid := uuid_v4 (rb (draws w))) in *.
  destruct (IH _ _ _ Hloop) as (Hd & Hkeep & Hrows & Hnd).
  rewrite Hdraws in Hd, Hrows, Hnd.
  assert (WeeklyTasks w'' !! tid = Some r) as Hstored.
  { apply Hkeep. rewrite Htbl. apply lookup_insert_eq. }
  rewrite next_ids_S. fold tid. split_and!.
  - lia.
  - intros k r0 Hk. apply Hkeep. rewrite Htbl, lookup_insert_ne; [done|].
    intros <-. congruence.
  - constructor; [done|].
    eapply Forall2_impl; [exact Hrows|].
    intros tid' r' (? & ? & Hnone & ?). split_and!; try done.
    rewrite Htbl in Hnone. by apply lookup_insert_None in Hnone as [? _].
  - apply NoDup_cons. split; [|done].
    intros [i Hi]%list_elem_of_lookup.
    destruct (Forall2_lookup_l _ _ _ _ _ Hrows Hi) as (r' & _ & _ & _ & Hnone & _).
    rewrite Htbl, lookup_insert_eq in Hnone. done.
Qed.

(** C7. A WeeklyTask created from a payload without an id of its own
    gets as weekly_task_id the version-4 UUID drawn at that creation:
    the row is stored under that id if no row has it, and refused, with
    the table unchanged, if one has; a payload that can be stored at all
    fails for no other reason. Two draws give the same id only if they
    agree in all 122 random bits. The rows [createWeaklyTask] creates get
    the identifiers of successive draws, pairwise distinct and new to the
    table. In every table the model's operations produced a row's
    weekly_task_id is its key, so two different rows never share an id. *)
Theorem weekly_task_id_generated_unique :
  (∀ rb tbl values now n,
     values !! "weekly_task_id" = None ->
     let tid := uuid_v4 (rb n) in
     is_uuid_v4 tid = true
     ∧ match Model_create rb WeeklyTask tbl values now n with
       | (inr r, tbl', n') =>
           n' = S n ∧ r !! "weekly_task_id" = Some (VStr tid)
           ∧ tbl !! tid = None ∧ tbl' = <[tid := r]> tbl
       | (inl _, tbl', n') => n' = S n ∧ tbl' = tbl
       end
     ∧ ∀ r tbl0 n0,
         Model_create rb WeeklyTask ∅ values now n = (inr r, tbl0, n0) ->
         Model_create rb WeeklyTask tbl values now n =
           match tbl !! tid with
           | Some _ => (inl UniqueConstraintError, tbl, S n)
           | None => (inr r, <[tid := r]> tbl, S n)
           end)
  ∧ (∀ b1 b2,
       uuid_v4 b1 = uuid_v4 b2 <->
       ∀ i, (i < 16)%nat ->
         Z.land (nth i b1 0%Z) (random_bits i) = Z.land (nth i b2 0%Z) (random_bits i))
  ∧ (∀ rb workId description sectorIds weekNumber w rs w',
       create_weekly_tasks rb workId description sectorIds weekNumber w = (inr rs, w') ->
       Forall2 (fun tid r =>
          r !! "weekly_task_id" = Some (VStr tid)
          ∧ is_uuid_v4 tid = true
          ∧ WeeklyTasks w !! tid = None
          ∧ WeeklyTasks w' !! tid = Some r)
         (next_ids rb (draws w) (length sectorIds)) rs
       ∧ NoDup (next_ids rb (draws w) (length sectorIds)))
  ∧ (∀ tbl k r, persisted WeeklyTask tbl -> tbl !! k = Some r ->
       r !! "weekly_task_id" = Some (VStr k))
  ∧ (∀ tbl k1 k2 r1 r2,
       persisted WeeklyTask tbl ->
       tbl !! k1 = Some r1 -> tbl !! k2 = Some r2 -> k1 ≠ k2 ->
       r1 !! "weekly_task_id" ≠ r2 !! "weekly_task_id").
Proof.
  assert (∀ tbl k r, persisted WeeklyTask tbl -> tbl !! k = Some r ->
            r !! "weekly_task_id" = Some (VStr k)) as Hkey.
  { intros tbl k r Hp Hl. apply WeeklyTask_key.
    by apply (persisted_table_ok _ WeeklyTask_names tbl Hp k r). }
  split_and!; [| | |done|].
  - intros rb tbl values now n Hnone. cbn zeta. split_and!.
    + apply uuid_v4_is_v4.
    + by apply WeeklyTask_create_own_id.
    + intros r tbl0 n0 Hc.
      pose proof (WeeklyTask_create_own_id rb ∅ values now n Hnone) as Hown.
      rewrite Hc in Hown. destruct Hown as (-> & Hr & _).
      pose proof (Model_create_same_payload rb tbl ∅ values now n) as Hs.
      rewrite Hc in Hs. destruct Hs as (k & Hk & ->).
      rewrite Hr in Hk. by injection Hk as <-.
  - apply uuid_v4_inj.
  - intros rb workId description sectorIds weekNumber w rs w' Hloop.
    by destruct (create_weekly_tasks_ids _ _ _ _ _ _ _ _ Hloop) as (_ & _ & ? & ?).
  - intros tbl k1 k2 r1 r2 Hp H1 H2 Hne.
    rewrite (Hkey tbl k1 r1), (Hkey tbl k2 r2) by done. congruence.
Qed.

(** ** Picking a task *)

Lemma store_patch_cons name a m patch :
  store_patch ((name, a) :: m) patch =
    match patch !! name with
    | Some v =>
        match store_value a v, store_patch m patch with
        | Some v', Some fields => Some ((name, v') :: fields)
        | _, _ => None
        end
    | None => store_patch m patch
    end.
Proof. reflexivity. Qed.

(** The statement of [pickWork] passes the validation and is stored as
    written, for a user id in UUID form. *)
Lemma pick_patch_stored user st now :
  is_uuid user = true ->
  let values : row :=
    <["updatedAt" := VDate now]> {[ "pickedBy" := VStr user; "status" := VStr st ]} in
  patch_not_null_ok WeeklyTask values = true
  ∧ store_patch WeeklyTask values
    = Some [("status", VStr st); ("pickedBy", VStr user); ("updatedAt", VDate now)]
  ∧ ∀ r' k, updated_key WeeklyTask values r' k = Some k.
Proof.
  intros Hu. cbn zeta. split_and!.
  - unfold patch_not_null_ok, WeeklyTask. cbn [forallb primaryKey allowNull].
    map_lookups. reflexivity.
  - unfold WeeklyTask.
    repeat (rewrite store_patch_cons; map_lookups; cbn [primaryKey store_value]).
    unfold cast. cbn [type has_type store_patch]. by rewrite Hu.
  - intros r' k. unfold updated_key.
    assert (primary_key WeeklyTask = Some "weekly_task_id") as -> by reflexivity.
    map_lookups. by rewrite bool_decide_eq_false_2 by by intros [? ?].
Qed.

Lemma picked_row user st now (r : row) :
  let r' := picked user st now r in
  r' !! "pickedBy" = Some (VStr user)
  ∧ r' !! "status" = Some (VStr st)
  ∧ ∀ name, name ≠ "pickedBy" -> name ≠ "status" -> name ≠ "updatedAt" ->
      r' !! name = r !! name.
Proof.
  cbn zeta. unfold picked. split_and!.
  - apply lookup_union_Some_l. rewrite !list_to_map_cons.
    rewrite lookup_insert_ne by done. apply lookup_insert_eq.
  - apply lookup_union_Some_l. rewrite !list_to_map_cons. apply lookup_insert_eq.
  - intros name H1 H2 H3. apply lookup_union_r. rewrite !list_to_map_cons.
    rewrite !lookup_insert_ne by done. apply lookup_empty.
Qed.

Lemma pickWork_unpicked st task user w t :
  is_uuid user = true ->
  WeeklyTasks w !! task = Some t ->
  unpicked t = true ->
  pickWork st task user w =
    (ok (Message "Work picked"),
     set_WeeklyTasks (<[task := picked user st (clock w) t]> (WeeklyTasks w)) (draws w) w).
Proof.
  intros Hu Ht Hun. unfold pickWork, Model_update. cbv zeta.
  destruct (pick_patch_stored user st (clock w) Hu) as (-> & -> & Hkey).
  rewrite Ht, Hun, Hkey. by rewrite bool_decide_eq_true_2.
Qed.

Lemma pickWork_picked st task user w t :
  is_uuid user = true ->
  WeeklyTasks w !! task = Some t ->
  unpicked t = false ->
  pickWork st task user w = (conflict, w).
Proof.
  intros Hu Ht Hun. unfold pickWork, Model_update. cbv zeta.
  destruct (pick_patch_stored user st (clock w) Hu) as (-> & -> & _).
  by rewrite Ht, Hun.
Qed.

Lemma picked_is_picked user st now t : unpicked (picked user st now t) = false.
Proof.
  unfold unpicked.
  destruct (picked_row user st now t) as (-> & _). done.
Qed.


Section Races.

Variable st : string.

Lemma interleave_done sched r1 r2 w :
  interleave sched (Done r1) (Done r2) w = (Done r1, Done r2, w).
Proof. induction sched as [|[] sched IH]; done. Qed.

Lemma interleave_first_won sched r1 task u2 w t :
  is_uuid u2 = true ->
  WeeklyTasks w !! task = Some t ->
  unpicked t = false ->
  false ∈ sched ->
  interleave sched (Done r1) (pickWork_request st task u2) w = (Done r1, Done conflict, w).
Proof.
  intros Hu Ht Hun. induction sched as [|[] sched IH].
  - by intros ?%elem_of_nil.
  - intros [?|Hin]%elem_of_cons; [done|]. cbn. by apply IH.
  - intros _. cbn. rewrite (pickWork_picked _ _ _ _ t) by done.
    apply interleave_done.
Qed.

Lemma interleave_second_won sched r2 task u1 w t :
  is_uuid u1 = true ->
  WeeklyTasks w !! task = Some t ->
  unpicked t = false ->
  true ∈ sched ->
  interleave sched (pickWork_request st task u1) (Done r2) w = (Done conflict, Done r2, w).
Proof.
  intros Hu Ht Hun. induction sched as [|[] sched IH].
  - by intros ?%elem_of_nil.
  - intros _. cbn. rewrite (pickWork_picked _ _ _ _ t) by done.
    apply interleave_done.
  - intros [?|Hin]%elem_of_cons; [done|]. cbn. by apply IH.
Qed.

(** C3. Two [pickWork] requests on one unclaimed task, interleaved in
    any order in which both get to run: both finish, exactly one of them
    succeeds, the other one gets the conflict, and the task ends up
    picked by the winner. *)
Theorem concurrent_picks_one_winner sched task u1 u2 w t :
  is_uuid u1 = true ->
  is_uuid u2 = true ->
  WeeklyTasks w !! task = Some t ->
  unpicked t = true ->
  true ∈ sched ->
  false ∈ sched ->
  ∃ r1 r2 w',
    interleave sched (pickWork_request st task u1) (pickWork_request st task u2) w
      = (Done r1, Done r2, w')
    ∧ ((succeeded r1 = true ∧ r2 = conflict ∧ succeeded r2 = false
        ∧ ∃ t', WeeklyTasks w' !! task = Some t' ∧ t' !! "pickedBy" = Some (VStr u1))
       ∨ (r1 = conflict ∧ succeeded r1 = false ∧ succeeded r2 = true
          ∧ ∃ t', WeeklyTasks w' !! task = Some t' ∧ t' !! "pickedBy" = Some (VStr u2))).
Proof.
  intros Hu1 Hu2 Ht Hun Htrue Hfalse.
  destruct sched as [|[] sched]; [by apply elem_of_nil in Htrue| |].
  - apply elem_of_cons in Hfalse as [?|Hfalse]; [done|].
    cbn [interleave step_thread pickWork_request].
    rewrite (pickWork_unpicked _ _ _ _ t) by done.
    eexists _, _, _. split.
    + eapply (interleave_first_won _ _ _ _ _ (picked u1 st (clock w) t));
        [done| |apply picked_is_picked|done].
      cbn. apply lookup_insert_eq.
    + left. split_and!; try done. exists (picked u1 st (clock w) t). split.
      * cbn. apply lookup_insert_eq.
      * apply picked_row.
  - apply elem_of_cons in Htrue as [?|Htrue]; [done|].
    cbn [interleave step_thread pickWork_request].
    rewrite (pickWork_unpicked _ _ _ _ t) by done.
    eexists _, _, _. split.
    + eapply (interleave_second_won _ _ _ _ _ (picked u2 st (clock w) t));
        [done| |apply picked_is_picked|done].
      cbn. apply lookup_insert_eq.
    + right. split_and!; try done. exists (picked u2 st (clock w) t). split.
      * cbn. apply lookup_insert_eq.
      * apply picked_row.
Qed.

End Races.

(** ** Creating the weekly tasks of a work *)

Lemma weekly_task_fields_lookup v0 v1 v2 v3 v4 v5 v6 v7 v8 :
  let r : row := list_to_map (weekly_task_fields v0 v1 v2 v3 v4 v5 v6 v7 v8) in
  r !! "weekly_task_id" = Some v0 ∧ r !! "description" = Some v1
  ∧ r !! "status" = Some v2 ∧ r !! "workId" = Some v3
  ∧ r !! "weekNumber" = Some v4 ∧ r !! "sectorId" = Some v5
  ∧ r !! "pickedBy" = Some v6 ∧ r !! "createdAt" = Some v7
  ∧ r !! "updatedAt" = Some v8.
Proof.
  cbn zeta. unfold weekly_task_fields. rewrite !list_to_map_cons.
  split_and!; by map_lookups.
Qed.

Lemma build_weekly_task rb workId description sectorId weekNumber now n :
  build rb WeeklyTask (weekly_task_values workId description sectorId weekNumber) now n
    = (weekly_task_fields (VStr (uuid_v4 (rb n))) description (VStr "unassigned") workId
         weekNumber sectorId VNull (VDate now) (VDate now), S n).
Proof.
  unfold WeeklyTask, weekly_task_values.
  repeat (rewrite build_cons; map_lookups; cbn [defaultValue]).
  reflexivity.
Qed.


Lemma persist_weekly_task tid d wid wk sid z1 z2 now :
  is_uuid tid = true ->
  is_uuid wid = true ->
  wk ≠ VNull -> cast INTEGER wk = Some (VNum z1) ->
  sid ≠ VNull -> cast INTEGER sid = Some (VNum z2) ->
  persist WeeklyTask
    (list_to_map (weekly_task_fields (VStr tid) (VStr d) (VStr "unassigned") (VStr wid)
                    wk sid VNull (VDate now) (VDate now)))
  = inr (list_to_map (weekly_task_fields (VStr tid) (VStr d) (VStr "unassigned") (VStr wid)
                        (VNum z1) (VNum z2) VNull (VDate now) (VDate now))).
Proof.
  intros Hid Hwid Hwk Hz1 Hsid Hz2.
  destruct (weekly_task_fields_lookup (VStr tid) (VStr d) (VStr "unassigned") (VStr wid)
              wk sid VNull (VDate now) (VDate now))
    as (H0 & H1 & H2 & H3 & H4 & H5 & H6 & H7 & H8).
  unfold persist, not_null_ok, WeeklyTask. cbn [forallb allowNull store_row].
  rewrite H0, H1, H2, H3, H4, H5, H6, H7, H8. cbn [default from_option id orb negb].
  rewrite (bool_decide_eq_false_2 (wk = VNull)) by done.
  rewrite (bool_decide_eq_false_2 (sid = VNull)) by done.
  cbn [orb negb andb bool_decide].
  assert (store_value {| type := INTEGER; allowNull := false; defaultValue := NoDefault;
                         primaryKey := false |} wk = Some (VNum z1)) as ->.
  { unfold store_value. by destruct wk. }
  assert (store_value {| type := INTEGER; allowNull := false; defaultValue := NoDefault;
                         primaryKey := false |} sid = Some (VNum z2)) as ->.
  { unfold store_value. by destruct sid. }
  unfold store_value, cast. cbn [type allowNull has_type]. rewrite Hid, Hwid.
  reflexivity.
Qed.

(** A row built with both timestamps at [now] is stamped to itself. *)
Lemma stamp_built now (r : row) t :
  r !! "createdAt" = Some (VDate t) -> r !! "updatedAt" = Some (VDate now) ->
  stamp now r = r.
Proof.
  intros Hc Hu. unfold stamp. rewrite Hc. cbn. by apply insert_id.
Qed.

Lemma WeeklyTask_create_weekly_task rb wid d sid wk w z1 z2 :
  is_uuid wid = true ->
  wk ≠ VNull -> cast INTEGER wk = Some (VNum z1) ->
  sid ≠ VNull -> cast INTEGER sid = Some (VNum z2) ->
  WeeklyTasks w !! uuid_v4 (rb (draws w)) = None ->
  WeeklyTask_create rb (weekly_task_values (VStr wid) (VStr d) sid wk) w =
    (inr (new_weekly_task (uuid_v4 (rb (draws w))) d wid z1 z2 (clock w)),
     set_WeeklyTasks
       (<[uuid_v4 (rb (draws w)) :=
            new_weekly_task (uuid_v4 (rb (draws w))) d wid z1 z2 (clock w)]> (WeeklyTasks w))
       (S (draws w)) w).
Proof.
  intros Hwid Hwk Hz1 Hsid Hz2 Hfresh.
  unfold WeeklyTask_create, Model_create. rewrite build_weekly_task.
  pose proof (uuid_v4_is_v4 (rb (draws w))) as Hv4.
  assert (is_uuid (uuid_v4 (rb (draws w))) = true) as Hu.
  { unfold is_uuid_v4 in Hv4. by do 2 apply andb_prop in Hv4 as [Hv4 _]. }
  set (tid := uuid_v4 (rb (draws w))) in *. clearbody tid.
  rewrite (stamp_built _ _ (clock w)) by apply weekly_task_fields_lookup.
  rewrite (persist_weekly_task tid d wid wk sid z1 z2) by done.
  fold (new_weekly_task tid d wid z1 z2 (clock w)).
  assert (key_of WeeklyTask (new_weekly_task tid d wid z1 z2 (clock w)) = Some tid) as ->.
  { apply WeeklyTask_key. apply weekly_task_fields_lookup. }
  by rewrite Hfresh.
Qed.


Lemma build_weekly_task_given rb tid workId description sectorId weekNumber now n :
  build rb WeeklyTask
    (<["weekly_task_id" := tid]> (weekly_task_values workId description sectorId weekNumber))
    now n
    = (weekly_task_fields tid description (VStr "unassigned") workId
         weekNumber sectorId VNull (VDate now) (VDate now), n).
Proof.
  unfold WeeklyTask, weekly_task_values.
  repeat (rewrite build_cons; map_lookups; cbn [defaultValue]).
  reflexivity.
Qed.

Lemma WeeklyTask_create_given_id rb tid wid d sid wk w z1 z2 :
  is_uuid tid = true ->
  is_uuid wid = true ->
  wk ≠ VNull -> cast INTEGER wk = Some (VNum z1) ->
  sid ≠ VNull -> cast INTEGER sid = Some (VNum z2) ->
  WeeklyTasks w !! tid = None ->
  WeeklyTask_create rb
    (<["weekly_task_id" := VStr tid]> (weekly_task_values (VStr wid) (VStr d) sid wk)) w =
    (inr (new_weekly_task tid d wid z1 z2 (clock w)),
     set_WeeklyTasks (<[tid := new_weekly_task tid d wid z1 z2 (clock w)]> (WeeklyTasks w))
       (draws w) w).
Proof.
  intros Hu Hwid Hwk Hz1 Hsid Hz2 Hfresh.
  unfold WeeklyTask_create, Model_create. rewrite build_weekly_task_given.
  rewrite (stamp_built _ _ (clock w)) by apply weekly_task_fields_lookup.
  rewrite (persist_weekly_task tid d wid wk sid z1 z2) by done.
  fold (new_weekly_task tid d wid z1 z2 (clock w)).
  assert (key_of WeeklyTask (new_weekly_task tid d wid z1 z2 (clock w)) = Some tid) as ->.
  { apply WeeklyTask_key. apply weekly_task_fields_lookup. }
  by rewrite Hfresh.
Qed.











(** The read-then-write pair does not have the property: both requests
    can read the task as unclaimed before either writes, and then both
    succeed, the second write replacing the first. *)
Lemma read_then_write_double_claim st task u1 u2 w t :
  is_uuid u1 = true ->
  is_uuid u2 = true ->
  WeeklyTasks w !! task = Some t ->
  unpicked t = true ->
  ∃ w' t',
    interleave [true; false; true; false]
      (pickWork_read_then_write st task u1) (pickWork_read_then_write st task u2) w
      = (Done (ok (Message "Work picked")), Done (ok (Message "Work picked")), w')
    ∧ WeeklyTasks w' !! task = Some t'
    ∧ t' !! "pickedBy" = Some (VStr u2).
Proof.
  intros Hu1 Hu2 Ht Hun.
  destruct (pick_patch_stored u1 st (clock w) Hu1) as (Hn1 & Hs1 & Hk1).
  destruct (pick_patch_stored u2 st (clock w) Hu2) as (Hn2 & Hs2 & Hk2).
  cbn [interleave step_thread pickWork_read_then_write].
  unfold Model_findByPk. rewrite Ht, Hun.
  cbn [interleave step_thread]. rewrite Ht, Hun.
  cbn [interleave step_thread]. unfold Model_update at 1. cbv zeta.
  rewrite Hn1, Hs1, Ht, Hk1, bool_decide_eq_true_2 by done.
  cbn [interleave step_thread WeeklyTasks set_WeeklyTasks clock].
  unfold Model_update. cbv zeta.
  rewrite Hn2, Hs2, lookup_insert_eq, Hk2, bool_decide_eq_true_2 by done.
  eexists _, _. split; [reflexivity|]. split.
  - cbn. apply lookup_insert_eq.
  - apply (picked_row u2 st (clock w)).
Qed.

(** ** The properties on sample data *)

Lemma sample_create :
  WeeklyTask_create sample_random sample_values sample_world
    = (inr sample_task, sample_world_1).
Proof.
  apply (WeeklyTask_create_weekly_task sample_random sample_work_id "Paint fence"
           (VNum 1) (VStr "4") sample_world 4 1); try done.
Qed.

Lemma sample_persisted : persisted WeeklyTask (WeeklyTasks sample_world_1).
Proof.
  eapply persisted_create; [apply persisted_empty|].
  apply (WeeklyTask_create_Model sample_random sample_values sample_world).
  apply sample_create.
Qed.

Lemma sample_task_unpicked : unpicked sample_task = true.
Proof.
  unfold unpicked, sample_task, new_weekly_task.
  by destruct (weekly_task_fields_lookup (VStr sample_task_id) (VStr "Paint fence")
                 (VStr "unassigned") (VStr sample_work_id) (VNum 4) (VNum 1) VNull
                 (VDate 1000) (VDate 1000)) as (_ & _ & _ & _ & _ & _ & -> & _).
Qed.

Lemma sample_task_stored : WeeklyTasks sample_world_1 !! sample_task_id = Some sample_task.
Proof. apply lookup_insert_eq. Qed.



Lemma concurrent_picks_one_winner_witness :
  is_uuid sample_user = true
  ∧ is_uuid sample_work_id = true
  ∧ WeeklyTasks sample_world_1 !! sample_task_id = Some sample_task
  ∧ unpicked sample_task = true
  ∧ true ∈ [false; true]
  ∧ false ∈ [false; true]
  ∧ ∃ r1 r2 w',
      interleave [false; true] (pickWork_request "assigned" sample_task_id sample_user)
        (pickWork_request "assigned" sample_task_id sample_work_id) sample_world_1
        = (Done r1, Done r2, w')
      ∧ ((succeeded r1 = true ∧ r2 = conflict ∧ succeeded r2 = false
          ∧ ∃ t', WeeklyTasks w' !! sample_task_id = Some t'
                  ∧ t' !! "pickedBy" = Some (VStr sample_user))
         ∨ (r1 = conflict ∧ succeeded r1 = false ∧ succeeded r2 = true
            ∧ ∃ t', WeeklyTasks w' !! sample_task_id = Some t'
                    ∧ t' !! "pickedBy" = Some (VStr sample_work_id))).
Proof.
  assert (is_uuid sample_user = true) as H1 by reflexivity.
  assert (is_uuid sample_work_id = true) as H2 by reflexivity.
  pose proof sample_task_stored as H3.
  pose proof sample_task_unpicked as H4.
  assert (true ∈ [false; true]) as H5 by (apply list_elem_of_further, list_elem_of_here).
  assert (false ∈ [false; true]) as H6 by apply list_elem_of_here.
  split_and!; [exact H1|exact H2|exact H3|exact H4|exact H5|exact H6|].
  exact (concurrent_picks_one_winner "assigned" [false; true] sample_task_id sample_user
           sample_work_id sample_world_1 sample_task H1 H2 H3 H4 H5 H6).
Defined.

Lemma weekly_task_id_generated_unique_witness :
  sample_values !! "weekly_task_id" = None
  ∧ let tid := uuid_v4 (sample_random 0) in
    is_uuid_v4 tid = true
    ∧ match Model_create sample_random WeeklyTask ∅ sample_values 1000 0 with
      | (inr r, tbl', n') =>
          n' = 1%nat ∧ r !! "weekly_task_id" = Some (VStr tid)
          ∧ (∅ : table) !! tid = None ∧ tbl' = <[tid := r]> ∅
      | (inl _, tbl', n') => n' = 1%nat ∧ tbl' = ∅
      end
    ∧ ∀ r tbl0 n0,
        Model_create sample_random WeeklyTask ∅ sample_values 1000 0 = (inr r, tbl0, n0) ->
        Model_create sample_random WeeklyTask ∅ sample_values 1000 0 =
          match (∅ : table) !! tid with
          | Some _ => (inl UniqueConstraintError, ∅, 1%nat)
          | None => (inr r, <[tid := r]> ∅, 1%nat)
          end.
Proof.
  assert (sample_values !! "weekly_task_id" = None) as H1.
  { unfold sample_values, weekly_task_values. by map_lookups. }
  split; [exact H1|].
  exact (proj1 weekly_task_id_generated_unique sample_random ∅ sample_values 1000%Z 0%nat H1).
Defined.

(** A payload that brings the identifier of a Work is stored under that
    identifier: nothing is drawn, and the id names a Work as well. *)
Lemma weekly_task_id_given_is_kept :
  ∃ r w',
    WeeklyTask_create sample_random sample_values_work_id sample_works = (inr r, w')
    ∧ r !! "weekly_task_id" = Some (VStr sample_work_id)
    ∧ WeeklyTasks w' !! sample_work_id = Some r
    ∧ draws w' = draws sample_works
    ∧ uuid_v4 (sample_random (draws sample_works)) ≠ sample_work_id
    ∧ is_Some (Works w' !! sample_work_id).
Proof.
  eexists _, _. split.
  { apply (WeeklyTask_create_given_id sample_random sample_work_id sample_work_id
             "Paint fence" (VNum 1) (VStr "4") sample_works 4 1); try done. }
  split_and!.
  - apply weekly_task_fields_lookup.
  - cbn. apply lookup_insert_eq.
  - done.
  - by vm_compute.
  - unfold set_WeeklyTasks, sample_works. cbn [Works].
    rewrite lookup_singleton_eq. by eexists.
Qed.

Lemma WeeklyTask_rows_keep_schema_witness :
  persisted WeeklyTask (WeeklyTasks sample_world_1)
  ∧ WeeklyTasks sample_world_1 !! sample_task_id = Some sample_task
  ∧ (∃ s, sample_task !! "description" = Some (VStr s))
  ∧ (∃ s, sample_task !! "status" = Some (VStr s))
  ∧ (∃ s, sample_task !! "workId" = Some (VStr s) ∧ is_uuid s = true)
  ∧ (∃ n, sample_task !! "weekNumber" = Some (VNum n))
  ∧ (∃ n, sample_task !! "sectorId" = Some (VNum n))
  ∧ (sample_task !! "pickedBy" = Some VNull
     ∨ ∃ s, sample_task !! "pickedBy" = Some (VStr s) ∧ is_uuid s = true)
  ∧ (∃ t, sample_task !! "createdAt" = Some (VDate t))
  ∧ (∃ t, sample_task !! "updatedAt" = Some (VDate t)).
Proof.
  pose proof sample_persisted as H1.
  pose proof sample_task_stored as H2.
  split_and!; [exact H1|exact H2|..];
    apply (proj1 (proj2 WeeklyTask_rows_keep_schema) (WeeklyTasks sample_world_1)
             sample_task_id sample_task H1 H2).
Defined.

Lemma routes_gated_as_listed_witness :
  control (Work work_controller.create)
    ∈ (serve allow_all valid_all answer_ok mounts sample_post sample_world).1.1
  ∧ ∃ prefix rt r perm tr,
      (prefix, rt) ∈ mounts ∧ r ∈ rt ∧ control (Work work_controller.create) ∈ r_stack r
      ∧ (r_method r, String.append prefix (r_path r), perm) ∈ resource_table
      ∧ permissions_of (r_stack r) = [perm]
      ∧ (serve allow_all valid_all answer_ok mounts sample_post sample_world).1.1
          = checkPermission perm :: tr
      ∧ allow_all sample_post perm = true.
Proof.
  assert (control (Work work_controller.create)
            ∈ (serve allow_all valid_all answer_ok mounts sample_post sample_world).1.1) as H.
  { apply (bool_decide_unpack _). vm_compute. exact I. }
  split; [exact H|].
  exact (proj2 routes_gated_as_listed allow_all valid_all answer_ok sample_post sample_world
           (Work work_controller.create) H).
Defined.

Lemma group_create_list_get_only_witness :
  req_method sample_delete ∈ [PUT; PATCH; DELETE]
  ∧ (∀ segs, handle allow_all valid_all answer_ok group_routes.router segs sample_delete
               sample_world = ([], Next, sample_world))
  ∧ (∀ c, control (Group c)
            ∉ (serve allow_all valid_all answer_ok mounts sample_delete sample_world).1.1).
Proof.
  assert (req_method sample_delete ∈ [PUT; PATCH; DELETE]) as H.
  { do 2 apply list_elem_of_further. apply list_elem_of_here. }
  split; [exact H|].
  exact (proj2 group_create_list_get_only allow_all valid_all answer_ok sample_delete
           sample_world H).
Defined.

Lemma getWeeklyTask_route_shadowed_witness :
  req_method sample_get = GET
  ∧ segments (req_path sample_get) = Some ["structure"; "work"; "weeklyTask"; "abc"]
  ∧ match_segs (compile_path "/structure/work/weeklyTask/:x")
      ["structure"; "work"; "weeklyTask"; "abc"] = Some [("x", "abc")]
  ∧ (serve allow_all valid_all answer_ok mounts sample_get sample_world).1.1 =
      if allow_all sample_get "can_view_weeklyTask"
      then [checkPermission "can_view_weeklyTask";
            control (Work work_controller.getWeeklyTaskById)]
      else [checkPermission "can_view_weeklyTask"].
Proof.
  assert (req_method sample_get = GET) as H1 by reflexivity.
  assert (segments (req_path sample_get)
            = Some ["structure"; "work"; "weeklyTask"; "abc"]) as H2 by reflexivity.
  assert (match_segs (compile_path "/structure/work/weeklyTask/:x")
            ["structure"; "work"; "weeklyTask"; "abc"] = Some [("x", "abc")]) as H3
    by reflexivity.
  split_and!; [exact H1|exact H2|exact H3|].
  exact (proj2 (proj2 (proj2 getWeeklyTask_route_shadowed)
                  allow_all valid_all answer_ok sample_get sample_world)
           _ _ H1 H2 H3).
Defined.

Lemma deleteOne_missing_is_not_found_witness :
  Works sample_world !! "abc" = None
  ∧ deleteOne "abc" sample_world = (not_found, sample_world)
  ∧ status not_found = 404%Z
  ∧ succeeded not_found = false
  ∧ ∀ permitted validates unspecified req segs,
      req_method req = DELETE ->
      segments (req_path req) = Some segs ->
      match_segs (compile_path "/structure/work/:workId") segs = Some [("workId", "abc")] ->
      permitted req "can_delete_zone_admin" = true ->
      app permitted validates unspecified req sample_world =
        ([checkPermission "can_delete_zone_admin"; control (Work work_controller.deleteOne)],
         not_found, sample_world).
Proof.
  assert (Works sample_world !! "abc" = None) as H by apply lookup_empty.
  split; [exact H|].
  exact (deleteOne_missing_is_not_found "abc" sample_world H).
Defined.

Lemma findOne_twice_same_witness :
  Works sample_works !! sample_work_id = Some {[ "description" := VStr "Paint fence" ]}
  ∧ findOne sample_work_id sample_works
      = (ok (Record_ {[ "description" := VStr "Paint fence" ]}), sample_works)
  ∧ findOne sample_work_id (findOne sample_work_id sample_works).2
      = findOne sample_work_id sample_works
  ∧ ∀ permitted validates unspecified req segs,
      req_method req = GET ->
      segments (req_path req) = Some segs ->
      match_segs (compile_path "/structure/work/get/:workId") segs
        = Some [("workId", sample_work_id)] ->
      let first := app permitted validates unspecified req sample_works in
      let second := app permitted validates unspecified req first.2 in
      first.2 = sample_works ∧ second = first
      ∧ (permitted req "can_view_work" = true ->
         first.1.2 = ok (Record_ {[ "description" := VStr "Paint fence" ]})).
Proof.
  assert (Works sample_works !! sample_work_id
            = Some {[ "description" := VStr "Paint fence" ]}) as H
    by apply lookup_singleton_eq.
  split; [exact H|].
  exact (findOne_twice_same sample_work_id sample_works _ H).
Defined.

(** * Further properties *)

(** ** A request goes to the route that matches it *)

(** Evaluates the route paths of a hypothesis to their patterns. *)
Ltac eval_paths_in H :=
  repeat match type of H with
         | context [compile_path ?p] =>
             let v := eval vm_compute in (compile_path p) in
             change (compile_path p) with v in H
         end.

(** Case analysis on the segments a pattern is matched against. *)
Ltac split_segs Hm :=
  match type of Hm with
  | context [match_segs _ ?segs] =>
      destruct segs as [|?a [|?b [|?c ?rest]]]; cbn [match_segs] in Hm; try done
  end.

(** From a route of a router and a request it matches to [first_match]
    choosing that route: the routes before it do not match. *)
Ltac chosen_route :=
  lazymatch goal with
  | Hm : route_matches _ ?m _ = Some _ |- _ =>
      unfold route_matches in Hm;
      cbn [r_method r_path r_stack get post put delete_] in Hm;
      destruct (handles_method _ m) eqn:Hh in Hm; [|done];
      eval_paths_in Hm;
      split_segs Hm;
      repeat match type of Hm with
             | context [eq_nocase ?l ?a] => destruct (eq_nocase l a) eqn:?; [|done]
             | context [bool_decide (?x = "")] =>
                 is_var x; destruct x as [|? ?]; [done|];
                 rewrite bool_decide_eq_false_2 in Hm by done
             end;
      try done;
      injection Hm as <-;
      destruct m; try (vm_compute in Hh; discriminate Hh);
      cbn [first_match];
      unfold route_matches, post, get, put, delete_;
      cbn [r_method r_path handles_method];
      eval_paths; cbn [match_segs];
      repeat match goal with
             | Ha : eq_nocase _ ?a = true |- _ => rewrite !(eq_nocase_via _ _ Ha); clear Ha
             end;
      vm_compute; reflexivity
  end.

(** Of the routes of the sources only the second GET route on
    /weeklyTask/:id has a route before it that matches what it matches. *)
Lemma matching_route_first rt r m segs ps :
  rt ∈ routers -> r ∈ rt -> r ≠ shadowed ->
  route_matches r m segs = Some ps ->
  first_match rt m segs = Some (r, ps).
Proof.
  intros Hrt Hr Hne Hm. unfold routers in Hrt.
  repeat (apply elem_of_cons in Hrt as [->|Hrt]); [| | |by apply elem_of_nil in Hrt].
  - unfold work_routes.router in *.
    repeat (apply elem_of_cons in Hr as [->|Hr]); [..|by apply elem_of_nil in Hr];
      try (by destruct Hne); chosen_route.
  - unfold zone_routes.router in *.
    repeat (apply elem_of_cons in Hr as [->|Hr]); [..|by apply elem_of_nil in Hr];
      chosen_route.
  - unfold group_routes.router in *.
    repeat (apply elem_of_cons in Hr as [->|Hr]); [..|by apply elem_of_nil in Hr];
      chosen_route.
Qed.

Lemma routers_cases rt :
  rt ∈ routers ->
  rt = work_routes.router ∨ rt = zone_routes.router ∨ rt = group_routes.router.
Proof.
  unfold routers. intros Hrt.
  repeat (apply elem_of_cons in Hrt as [->|Hrt]); auto. by apply elem_of_nil in Hrt.
Qed.

Lemma first_match_not_shadowed rt r m segs ps :
  rt ∈ routers -> first_match rt m segs = Some (r, ps) -> r ≠ shadowed.
Proof.
  intros [->|Hrt]%routers_cases Hf Heq.
  - apply first_match_work_skips_getWeeklyTask in Hf. subst r.
    apply Hf. apply list_elem_of_further, list_elem_of_here.
  - apply first_match_Some in Hf as [Hr _].
    assert (control (Work work_controller.getWeeklyTask) ∉ r_stack r) as Hno.
    { apply other_routers_lack_getWeeklyTask. by destruct Hrt as [-> | ->]; [left|right]. }
    subst r. apply Hno. apply list_elem_of_further, list_elem_of_here.
Qed.

(** X1. In each of the three routers a request is dispatched to a route
    exactly when that route is registered there, matches the request's verb
    and path, and is not the second GET route on /weeklyTask/:id: apart
    from that one, no registration is hidden behind an earlier one. *)
Theorem route_chosen_iff_matches rt r m segs ps :
  rt ∈ routers ->
  first_match rt m segs = Some (r, ps)
  <-> r ∈ rt ∧ r ≠ shadowed ∧ route_matches r m segs = Some ps.
Proof.
  intros Hrt. split.
  - intros Hf. pose proof (first_match_not_shadowed rt r m segs ps Hrt Hf).
    apply first_match_Some in Hf as [? ?]. done.
  - intros (Hr & Hne & Hm). by apply matching_route_first.
Qed.

(** ** What a matched request runs *)

(** Every registration is a permission check, then at most one
    validation, then one controller; the validated controllers are the
    four of [validated]. *)
Lemma routers_stacks rt r :
  rt ∈ routers -> r ∈ rt ->
  r_stack r = expected_stack r
  ∧ is_Some (route_permission r)
  ∧ ∃ c, route_controller r = Some c
         ∧ bool_decide (is_Some (route_validation r)) = bool_decide (c ∈ validated).
Proof.
  intros Hrt Hr.
  apply routers_cases in Hrt as [-> | [-> | ->]];
    [unfold work_routes.router in Hr|unfold zone_routes.router in Hr
    |unfold group_routes.router in Hr];
    repeat (apply elem_of_cons in Hr as [->|Hr]); try (by apply elem_of_nil in Hr);
    (split_and!; [reflexivity|by eexists|]);
    (eexists; split; [reflexivity|vm_compute; reflexivity]).
Qed.

Lemma routers_answer rt :
  rt ∈ routers -> forallb (fun r => answers (r_stack r)) rt = true.
Proof. by intros [-> | [-> | ->]]%routers_cases. Qed.

Section Outcomes.

Variable permitted : request -> string -> bool.
Variable validates : validator -> request -> bool.
Variable run : controller -> params -> request -> world -> response * world.


Lemma expected_stack_run r ps req w perm c :
  route_permission r = Some perm ->
  route_controller r = Some c ->
  run_stack permitted validates run (expected_stack r) ps req w =
    if permitted req perm then
      match route_validation r with
      | Some v =>
          if validates v req
          then (expected_stack r, Send (run c ps req w).1, (run c ps req w).2)
          else ([checkPermission perm; validation v], Send bad_request, w)
      | None => (expected_stack r, Send (run c ps req w).1, (run c ps req w).2)
      end
    else ([checkPermission perm], Send forbidden, w).
Proof.
  intros Hp Hc. unfold expected_stack. rewrite Hp, Hc.
  destruct (route_validation r) as [v|]; cbn;
    destruct (permitted req perm); try done;
    [destruct (validates v req); [|done]|]; by destruct (run c ps req w).
Qed.

(** X2. A request that one of the routers dispatches to a route is answered
    403 after the permission check alone when the caller lacks the route's
    permission, 400 after the check and the validation when the route has a
    validation and the payload fails it, and by the route's controller
    otherwise; in the first two cases the state is left as it was. *)
Theorem matched_request_outcome rt r req segs ps w :
  rt ∈ routers ->
  first_match rt (req_method req) segs = Some (r, ps) ->
  ∃ perm c,
    route_permission r = Some perm ∧ route_controller r = Some c
    ∧ handle permitted validates run rt segs req w =
        if permitted req perm then
          match route_validation r with
          | Some v =>
              if validates v req
              then (r_stack r, Send (run c ps req w).1, (run c ps req w).2)
              else ([checkPermission perm; validation v], Send bad_request, w)
          | None => (r_stack r, Send (run c ps req w).1, (run c ps req w).2)
          end
        else ([checkPermission perm], Send forbidden, w).
Proof.
  intros Hrt Hf.
  rewrite handle_first_match, Hf by by apply routers_answer.
  apply first_match_Some in Hf as [Hr _].
  destruct (routers_stacks rt r Hrt Hr) as (Hstack & [perm Hp] & c & Hc & _).
  exists perm, c. split_and!; [done|done|].
  rewrite Hstack at 1. rewrite (expected_stack_run r ps req w perm c) by done.
  by rewrite <- Hstack.
Qed.

(** The handlers a router runs for a request. *)
Lemma handle_trace_cases rt req segs w :
  rt ∈ routers ->
  (handle permitted validates run rt segs req w).1.1 = []
  ∨ ∃ r ps perm c,
      first_match rt (req_method req) segs = Some (r, ps)
      ∧ r ∈ rt
      ∧ route_permission r = Some perm ∧ route_controller r = Some c
      ∧ bool_decide (is_Some (route_validation r)) = bool_decide (c ∈ validated)
      ∧ (handle permitted validates run rt segs req w).1.1 =
          if permitted req perm then
            match route_validation r with
            | Some v =>
                if validates v req then [checkPermission perm; validation v; control c]
                else [checkPermission perm; validation v]
            | None => [checkPermission perm; control c]
            end
          else [checkPermission perm].
Proof.
  intros Hrt. rewrite handle_first_match by by apply routers_answer.
  destruct (first_match rt (req_method req) segs) as [[r ps]|] eqn:Hf; [|by left].
  right. pose proof Hf as [Hr _]%first_match_Some.
  destruct (routers_stacks rt r Hrt Hr) as (Hstack & [perm Hp] & c & Hc & Hv).
  exists r, ps, perm, c. split_and!; try done.
  rewrite Hstack, (expected_stack_run r ps req w perm c) by done.
  unfold expected_stack. rewrite Hp, Hc.
  destruct (permitted req perm); [|done].
  destruct (route_validation r) as [v|]; [|done]. by destruct (validates v req).
Qed.

(** X3. When a controller runs, the payload has passed a validation if the
    controller is one of the four registered behind one (the three creates
    and updateWeeklyTask), and no validation ran at all if it is not. *)
Theorem validation_only_where_registered rt req segs w c :
  rt ∈ routers ->
  control c ∈ (handle permitted validates run rt segs req w).1.1 ->
  (c ∈ validated ->
     ∃ v, validation v ∈ (handle permitted validates run rt segs req w).1.1
          ∧ validates v req = true)
  ∧ (c ∉ validated ->
     ∀ v, validation v ∉ (handle permitted validates run rt segs req w).1.1).
Proof.
  intros Hrt Hin.
  destruct (handle_trace_cases rt req segs w Hrt)
    as [Hnil|(r & ps & perm & c' & _ & _ & _ & _ & Hv & Htr)].
  { rewrite Hnil in Hin. by apply elem_of_nil in Hin. }
  rewrite Htr in Hin |- *.
  destruct (permitted req perm).
  2: { apply elem_of_cons in Hin as [?|Hin]; [done|]. by apply elem_of_nil in Hin. }
  destruct (route_validation r) as [v|].
  - assert (c' ∈ validated) as Hc'.
    { apply (bool_decide_unpack _). rewrite <- Hv. by apply bool_decide_pack. }
    destruct (validates v req) eqn:Hval.
    + assert (c = c') as ->.
      { repeat (apply elem_of_cons in Hin as [?|Hin]; [congruence|]).
        by apply elem_of_nil in Hin. }
      split; [|done]. intros _. exists v. split; [|done].
      apply list_elem_of_further, list_elem_of_here.
    + repeat (apply elem_of_cons in Hin as [?|Hin]; [done|]). by apply elem_of_nil in Hin.
  - assert (c' ∉ validated) as Hc'.
    { intros Hc'. apply (bool_decide_pack _) in Hc'. rewrite <- Hv in Hc'.
      apply bool_decide_unpack in Hc'. by destruct Hc'. }
    assert (c = c') as ->.
    { repeat (apply elem_of_cons in Hin as [?|Hin]; [congruence|]).
      by apply elem_of_nil in Hin. }
    split; [done|]. intros _ v Hv'.
    repeat (apply elem_of_cons in Hv' as [?|Hv']; [done|]). by apply elem_of_nil in Hv'.
Qed.

Lemma routes_serve_their_verb rt r m c :
  rt ∈ routers -> r ∈ rt -> r ≠ shadowed ->
  handles_method (r_method r) m = true ->
  route_controller r = Some c ->
  c ∈ served_on m.
Proof.
  intros Hrt Hr Hne Hh Hc.
  apply routers_cases in Hrt as [-> | [-> | ->]];
    [unfold work_routes.router in Hr|unfold zone_routes.router in Hr
    |unfold group_routes.router in Hr];
    repeat (apply elem_of_cons in Hr as [->|Hr]); try (by apply elem_of_nil in Hr);
    try (by destruct Hne);
    injection Hc as <-;
    destruct m; try (vm_compute in Hh; discriminate Hh);
    apply (bool_decide_unpack _); by vm_compute.
Qed.

(** X4. A controller runs only for requests of the verb it is registered
    on (HEAD counting as GET): no PATCH or OPTIONS request runs a
    controller, a PUT request runs updateWeeklyTask only, a DELETE request
    one of the two deleteOne. *)
Theorem controllers_run_on_their_verb rt req segs w c :
  rt ∈ routers ->
  control c ∈ (handle permitted validates run rt segs req w).1.1 ->
  c ∈ served_on (req_method req).
Proof.
  intros Hrt Hin.
  destruct (handle_trace_cases rt req segs w Hrt)
    as [Hnil|(r & ps & perm & c' & Hf & Hr & _ & Hc & _ & Htr)].
  { rewrite Hnil in Hin. by apply elem_of_nil in Hin. }
  assert (c = c') as ->.
  { rewrite Htr in Hin. destruct (permitted req perm).
    - destruct (route_validation r) as [v|]; [destruct (validates v req)|];
        repeat (apply elem_of_cons in Hin as [?|Hin]; [congruence|]);
        by apply elem_of_nil in Hin.
    - repeat (apply elem_of_cons in Hin as [?|Hin]; [congruence|]).
      by apply elem_of_nil in Hin. }
  pose proof (first_match_not_shadowed rt r _ segs ps Hrt Hf) as Hne.
  apply first_match_Some in Hf as [_ Hm%route_matches_method].
  by eapply routes_serve_their_verb.
Qed.

End Outcomes.


Lemma match_segs_length pat segs ps :
  match_segs pat segs = Some ps -> length segs = length pat.
Proof.
  revert segs ps. induction pat as [|[l|x] pat IH]; intros [|s segs] ps; cbn; try done.
  - destruct (eq_nocase l s); [|done]. intros ?%IH. by f_equal.
  - destruct (bool_decide (s = "")); [done|].
    destruct (match_segs pat segs) eqn:Hm; [|done]. intros _. f_equal. by eapply IH.
Qed.

(** Every route path of the sources has one or two segments. *)
Lemma routers_path_lengths rt r :
  rt ∈ routers -> r ∈ rt ->
  (1 <= length (compile_path (r_path r)) <= 2)%nat.
Proof.
  intros Hrt Hr.
  apply routers_cases in Hrt as [-> | [-> | ->]];
    [unfold work_routes.router in Hr|unfold zone_routes.router in Hr
    |unfold group_routes.router in Hr];
    repeat (apply elem_of_cons in Hr as [->|Hr]); try (by apply elem_of_nil in Hr);
    vm_compute; split; repeat constructor.
Qed.

(** X5. A request whose path, below the mount point, is the root or has
    more than two segments runs no handler of any of the three routers and
    is passed on with the state unchanged. *)
Theorem unrouted_paths_fall_through permitted validates run rt req segs w :
  rt ∈ routers ->
  length segs = 0%nat ∨ (2 < length segs)%nat ->
  handle permitted validates run rt segs req w = ([], Next, w).
Proof.
  intros Hrt Hlen. rewrite handle_first_match by by apply routers_answer.
  destruct (first_match rt (req_method req) segs) as [[r ps]|] eqn:Hf; [|done].
  apply first_match_Some in Hf as [Hr Hm]. unfold route_matches in Hm.
  destruct (handles_method _ _); [|done].
  apply match_segs_length in Hm.
  pose proof (routers_path_lengths rt r Hrt Hr). lia.
Qed.

(** ** Identifiers in the path *)

Lemma split_slash_seg a s :
  slash_free a = true -> split_slash (a +:+ String "/" s) = a :: split_slash s.
Proof.
  induction a as [|c a IH]; [done|]. cbn [slash_free].
  intros [Hc Ha]%andb_prop. apply negb_true_iff in Hc.
  change (String c a +:+ String "/" s) with (String c (a +:+ String "/" s)).
  cbn [split_slash]. by rewrite Hc, (IH Ha).
Qed.

Lemma split_slash_last a : slash_free a = true -> split_slash a = [a].
Proof.
  induction a as [|c a IH]; [done|]. cbn [slash_free].
  intros [Hc Ha]%andb_prop. apply negb_true_iff in Hc.
  cbn [split_slash]. by rewrite Hc, (IH Ha).
Qed.

Lemma is_uuid_from_slash_free i s : is_uuid_from i s = true -> slash_free s = true.
Proof.
  revert i. induction s as [|c s IH]; [done|]. intros i. cbn [is_uuid_from slash_free].
  intros [Hc Hs]%andb_prop. rewrite (IH _ Hs), andb_true_r.
  apply negb_true_iff. destruct (Ascii.eqb_spec c "/") as [->|]; [|done].
  by destruct ((i =? 8)%nat || (i =? 13)%nat || (i =? 18)%nat || (i =? 23)%nat).
Qed.

Lemma is_uuid_segment s : is_uuid s = true -> slash_free s = true ∧ s ≠ "".
Proof.
  intros Hu. split; [by eapply is_uuid_from_slash_free|]. by intros ->.
Qed.

Lemma segments_id id :
  slash_free id = true -> id ≠ "" ->
  segments (String "/" id) = Some [id]
  ∧ segments (String "/" (id +:+ "/")) = Some [id].
Proof.
  intros Hs Hne. unfold segments. cbn [split_slash Ascii.eqb Bool.eqb].
  rewrite split_slash_last, (split_slash_seg id "") by done. cbn.
  by rewrite bool_decide_eq_false_2.
Qed.

Lemma segments_lit_id lit id :
  slash_free lit = true -> lit ≠ "" ->
  slash_free id = true -> id ≠ "" ->
  segments (String "/" (lit +:+ String "/" id)) = Some [lit; id]
  ∧ segments (String "/" (lit +:+ String "/" (id +:+ "/"))) = Some [lit; id].
Proof.
  intros Hl Hlne Hs Hne. unfold segments. cbn [split_slash Ascii.eqb Bool.eqb].
  rewrite !(split_slash_seg lit) by done.
  rewrite split_slash_last, (split_slash_seg id "") by done. cbn.
  by rewrite bool_decide_eq_false_2.
Qed.

(** The route a path with one parameter is dispatched to. *)
Ltac param_route :=
  apply matching_route_first;
  [ apply (bool_decide_unpack _); by vm_compute
  | apply (bool_decide_unpack _); by vm_compute
  | by intros [=]
  | unfold route_matches; cbn [r_method r_path get post put delete_ handles_method];
    eval_paths; cbn [match_segs];
    match goal with
    | H : ?x ≠ "" |- _ => rewrite (bool_decide_eq_false_2 (x = "")) by done
    end; reflexivity ].

(** X6. An identifier in UUID form put in the place of the parameter of
    any of the eight parameterised routes reaches that route, bound
    unchanged to the route's parameter name; a trailing slash makes no
    difference. *)
Theorem uuid_parameters_reach_controllers id :
  is_uuid id = true ->
  (segments ("/get/" +:+ id) ≫= first_match work_routes.router GET
     = Some (get "/get/:workId"
               [checkPermission "can_view_work"; control (Work work_controller.findOne)],
             [("workId", id)]))
  ∧ (segments ("/" +:+ id) ≫= first_match work_routes.router DELETE
     = Some (delete_ "/:workId"
               [checkPermission "can_delete_zone_admin";
                control (Work work_controller.deleteOne)],
             [("workId", id)]))
  ∧ (segments ("/assign/" +:+ id) ≫= first_match work_routes.router POST
     = Some (post "/assign/:workId"
               [checkPermission "can_update_work";
                control (Work work_controller.assignWorkToSector)],
             [("workId", id)]))
  ∧ (segments ("/weeklyTask/" +:+ id) ≫= first_match work_routes.router GET
     = Some (get "/weeklyTask/:weekly_task_id"
               [checkPermission "can_view_weeklyTask";
                control (Work work_controller.getWeeklyTaskById)],
             [("weekly_task_id", id)]))
  ∧ (segments ("/weeklyTask/" +:+ id) ≫= first_match work_routes.router PUT
     = Some (put "/weeklyTask/:weekly_task_id"
               [checkPermission "can_update_weeklyTask";
                validation updateWeaklyTaskValidation;
                control (Work work_controller.updateWeeklyTask)],
             [("weekly_task_id", id)]))
  ∧ (segments ("/get/" +:+ id) ≫= first_match zone_routes.router GET
     = Some (get "/get/:zone_user_id"
               [checkPermission "can_view_zone_admin";
                control (Zone zone_controller.findOne)],
             [("zone_user_id", id)]))
  ∧ (segments ("/" +:+ id) ≫= first_match zone_routes.router DELETE
     = Some (delete_ "/:zone_user_id"
               [checkPermission "can_delete_zone_admin";
                control (Zone zone_controller.deleteOne)],
             [("zone_user_id", id)]))
  ∧ (segments ("/get/" +:+ id) ≫= first_match group_routes.router GET
     = Some (get "/get/:group_id"
               [checkPermission "can_view_sector"; control (Group group_controller.findOne)],
             [("group_id", id)]))
  ∧ segments ("/get/" +:+ id +:+ "/") = segments ("/get/" +:+ id)
  ∧ segments ("/" +:+ id +:+ "/") = segments ("/" +:+ id).
Proof.
  intros [Hs Hne]%is_uuid_segment.
  destruct (segments_id id Hs Hne) as [Hid Hid'].
  change ("/" +:+ (id +:+ "/")) with (String "/" (id +:+ "/")).
  change ("/" +:+ id) with (String "/" id).
  rewrite Hid, Hid'.
  destruct (segments_lit_id "get" id eq_refl ltac:(done) Hs Hne) as [Hget Hget'].
  change ("/get/" +:+ (id +:+ "/"))
    with (String "/" ("get" +:+ String "/" (id +:+ "/"))).
  change ("/get/" +:+ id) with (String "/" ("get" +:+ String "/" id)).
  rewrite Hget, Hget'.
  destruct (segments_lit_id "assign" id eq_refl ltac:(done) Hs Hne) as [Hassign _].
  change ("/assign/" +:+ id) with (String "/" ("assign" +:+ String "/" id)).
  rewrite Hassign.
  destruct (segments_lit_id "weeklyTask" id eq_refl ltac:(done) Hs Hne) as [Hweek _].
  change ("/weeklyTask/" +:+ id) with (String "/" ("weeklyTask" +:+ String "/" id)).
  rewrite Hweek.
  cbn [mbind option_bind].
  split_and!; try done; param_route.
Qed.

(** ** The routes and their annotations *)

(** X7. The @swagger annotations of the work router name, in order, the
    paths and verbs of its eleven routes, and those of the zone router the
    paths, verbs and path parameters of its four; the one annotation of the
    work router whose path parameters differ from its route's is that of
    POST /pickWork, which declares a path parameter workId the route does
    not have. *)
Theorem swagger_matches_routes :
  map (fun e => e.1) (map (documented "/structure/work") work_routes.router)
    = map (fun e => e.1) work_swagger
  ∧ map (documented "/structure/zone") zone_routes.router = zone_swagger
  ∧ filter (fun e => e ∉ map (documented "/structure/work") work_routes.router)
      work_swagger
    = [("/structure/work/pickWork", POST, ["workId"])].
Proof. split_and!; vm_compute; reflexivity. Qed.

(** ** What create asks for and fills in *)

Lemma build_values rb m values now n fields n' :
  build rb m values now n = (fields, n') ->
  ∀ name a, (name, a) ∈ m ->
    ∃ v, (name, v) ∈ fields ∧ built_value rb a (values !! name) now v.
Proof.
  revert n fields n'. induction m as [|[name0 a0] m IH]; intros n fields n'.
  { intros _ ?? ?%elem_of_nil. done. }
  rewrite build_cons. unfold built_value.
  destruct (values !! name0) as [v0|] eqn:Hv0; [|destruct (defaultValue a0) as [|lit| |] eqn:Hd];
    (destruct (build rb m values now _) as [fs k'] eqn:Hfs;
     intros [= <- <-] name a [[= -> ->]|Hin]%elem_of_cons;
     [eexists; split; [apply list_elem_of_here|]; rewrite ?Hv0, ?Hd; eauto
     |destruct (IH _ _ _ Hfs name a Hin) as (v & ? & ?);
      exists v; split; [by apply list_elem_of_further|done]]).
Qed.

Lemma build_value rb m values now n fields n' name a :
  NoDup m.*1 ->
  build rb m values now n = (fields, n') ->
  (name, a) ∈ m ->
  ∃ v, (list_to_map fields : row) !! name = Some v
       ∧ built_value rb a (values !! name) now v.
Proof.
  intros Hnd Hb Hin.
  destruct (build_values _ _ _ _ _ _ _ Hb name a Hin) as (v & Hv & Hbv).
  exists v. split; [|done].
  apply elem_of_list_to_map_1; [|done].
  apply build_fields in Hb as [-> _]. done.
Qed.

Lemma not_null_violation m (r : row) name a :
  (name, a) ∈ m -> allowNull a = false -> default VNull (r !! name) = VNull ->
  not_null_ok m r = false.
Proof.
  intros Hin Hnn Hnull. unfold not_null_ok.
  destruct (forallb _ m) eqn:Hall; [|done].
  rewrite forallb_forall in Hall. apply list_elem_of_In, Hall in Hin.
  cbn in Hin. rewrite Hnn, Hnull in Hin. cbn in Hin.
  by rewrite bool_decide_eq_true_2 in Hin.
Qed.

(** A value left out of an attribute that is not nullable and has no
    default, or given as null to one that is not nullable, fails the
    creation. *)
Lemma create_not_null_violation rb m tbl values now n name a :
  NoDup m.*1 ->
  (name, a) ∈ m -> allowNull a = false ->
  name ≠ "createdAt" -> name ≠ "updatedAt" ->
  values !! name = Some VNull ∨ (values !! name = None ∧ no_default a = true) ->
  (Model_create rb m tbl values now n).1 = (inl ValidationError, tbl).
Proof.
  intros Hnd Hin Hnn Hnc Hnu Hval. unfold Model_create.
  destruct (build rb m values now n) as [fields n'] eqn:Hb.
  destruct (build_value _ _ _ _ _ _ _ name a Hnd Hb Hin) as (v & Hv & Hbv).
  assert (v = VNull) as ->.
  { unfold built_value, no_default in *.
    destruct Hval as [Hval | [Hval Hd]]; rewrite Hval in Hbv; [done|].
    by destruct (defaultValue a). }
  unfold persist.
  by rewrite (not_null_violation m _ name a) by (by rewrite ?stamp_lookup, ?Hv).
Qed.

Lemma persist_unknown m r0 r name :
  persist m r0 = inr r -> name ∉ m.*1 -> r !! name = None.
Proof.
  unfold persist. destruct (not_null_ok m r0); [|done].
  destruct (store_row m r0) as [fields|] eqn:Hs; [|done].
  intros [= <-] Hno. apply not_elem_of_list_to_map_1.
  apply store_row_fields in Hs as [-> _]. done.
Qed.

Lemma Model_create_stored rb tbl values now n r tbl' n' name a :
  (name, a) ∈ WeeklyTask ->
  name ≠ "createdAt" -> name ≠ "updatedAt" ->
  Model_create rb WeeklyTask tbl values now n = (inr r, tbl', n') ->
  ∃ v v', built_value rb a (values !! name) now v
          ∧ store_value a v = Some v' ∧ r !! name = Some v'.
Proof.
  intros Hin Hnc Hnu (fields & k & Hb & Hp & _)%Model_create_inr.
  destruct (build_value _ _ _ _ _ _ _ name a WeeklyTask_names Hb Hin) as (v & Hv & Hbv).
  destruct (persist_inr _ _ _ WeeklyTask_names Hp name a Hin) as (v' & Hv' & Hst & _).
  rewrite stamp_lookup, Hv in Hst by done. by exists v, v'.
Qed.

Lemma build_given_id rb values now n v :
  values !! "weekly_task_id" = Some v ->
  ∃ rest, build rb WeeklyTask values now n = (("weekly_task_id", v) :: rest, n).
Proof.
  intros Hv. unfold WeeklyTask. rewrite build_cons, Hv.
  match goal with
  | |- context [build rb ?m values now n] =>
      assert (forallb (fun '(_, a) => negb (draws_uuid a)) m = true) as Hd
        by reflexivity;
      apply (build_draws rb m values now n) in Hd;
      destruct (build rb m values now n) as [rest k]
  end.
  cbn in Hd. subst k. by exists rest.
Qed.

(** X8. The attributes a caller of WeeklyTask.create has to supply are
    description, workId, weekNumber and sectorId: leaving one out, or giving
    null for one of them or for status, ends in a validation error with the
    table unchanged, so a creation that succeeds was given a non-null value
    for each. *)
Theorem WeeklyTask_required_attributes rb tbl values now n :
  required WeeklyTask = ["description"; "workId"; "weekNumber"; "sectorId"]
  ∧ (∀ name, name ∈ required WeeklyTask -> values !! name = None ->
       (Model_create rb WeeklyTask tbl values now n).1 = (inl ValidationError, tbl))
  ∧ (∀ name, name ∈ "status" :: required WeeklyTask ->
       values !! name = Some VNull ->
       (Model_create rb WeeklyTask tbl values now n).1 = (inl ValidationError, tbl))
  ∧ (∀ r tbl' n', Model_create rb WeeklyTask tbl values now n = (inr r, tbl', n') ->
       ∀ name, name ∈ required WeeklyTask ->
         ∃ v, values !! name = Some v ∧ v ≠ VNull).
Proof.
  assert (∀ name, name ∈ required WeeklyTask ->
            ∃ a, (name, a) ∈ WeeklyTask ∧ allowNull a = false ∧ no_default a = true) as Hreq.
  { intros name Hin. unfold required in Hin.
    apply list_elem_of_fmap in Hin as ([name' a] & -> & [Hf Hin]%list_elem_of_filter).
    exists a. apply andb_prop in Hf as [Hnn%negb_true_iff Hd]. done. }
  assert (∀ name, name ∈ "status" :: required WeeklyTask ->
            name ≠ "createdAt" ∧ name ≠ "updatedAt") as Hstamp.
  { intros name Hin.
    repeat (apply elem_of_cons in Hin as [->|Hin]; [done|]). by apply elem_of_nil in Hin. }
  split_and!.
  - reflexivity.
  - intros name Hname Hnone. destruct (Hstamp name) as [Hnc Hnu]; [by right|].
    apply Hreq in Hname as (a & Hin & Hnn & Hd).
    apply (create_not_null_violation _ _ _ _ _ _ name a); auto using WeeklyTask_names.
  - intros name Hin Hnull. destruct (Hstamp name Hin) as [Hnc Hnu].
    assert (∃ a, (name, a) ∈ WeeklyTask ∧ allowNull a = false) as (a & Ha & Hnn).
    { apply elem_of_cons in Hin as [->|Hin].
      - eexists. split; [in_model|done].
      - destruct (Hreq name Hin) as (a & ? & ? & _). by exists a. }
    apply (create_not_null_violation _ _ _ _ _ _ name a); auto using WeeklyTask_names.
  - intros r tbl' n' Hc name Hname. destruct (Hstamp name) as [Hnc Hnu]; [by right|].
    apply Hreq in Hname as (a & Hin & Hnn & Hd).
    destruct (values !! name) as [v|] eqn:Hv.
    + exists v. split; [done|]. intros ->.
      pose proof (create_not_null_violation rb WeeklyTask tbl values now n name a
                    WeeklyTask_names Hin Hnn Hnc Hnu (or_introl Hv)) as Herr.
      by rewrite Hc in Herr.
    + pose proof (create_not_null_violation rb WeeklyTask tbl values now n name a
                    WeeklyTask_names Hin Hnn Hnc Hnu (or_intror (conj Hv Hd))) as Herr.
      by rewrite Hc in Herr.
Qed.

(** X9. A WeeklyTask that is created gets status 'unassigned' when none is
    given and keeps the status that is given, gets a null pickedBy when
    none is given, and stores nothing under a name the model does not
    define. *)
Theorem WeeklyTask_defaults rb tbl values now n r tbl' n' :
  Model_create rb WeeklyTask tbl values now n = (inr r, tbl', n') ->
  (values !! "status" = None -> r !! "status" = Some (VStr "unassigned"))
  ∧ (∀ s, values !! "status" = Some (VStr s) -> r !! "status" = Some (VStr s))
  ∧ (values !! "pickedBy" = None -> r !! "pickedBy" = Some VNull)
  ∧ (∀ name, name ∉ WeeklyTask.*1 -> r !! name = None).
Proof.
  intros Hc.
  assert (∀ name a, (name, a) ∈ WeeklyTask ->
            name ≠ "createdAt" -> name ≠ "updatedAt" ->
            ∃ v v', built_value rb a (values !! name) now v
                    ∧ store_value a v = Some v' ∧ r !! name = Some v') as Hst
    by (intros; by eapply Model_create_stored).
  split_and!.
  - intros Hv. edestruct (Hst "status") as (v & v' & Hb & Hs & ->); [in_model|done|done|].
    rewrite Hv in Hb. cbn in Hb. subst v. cbn in Hs. congruence.
  - intros s Hv. edestruct (Hst "status") as (v & v' & Hb & Hs & ->); [in_model|done|done|].
    rewrite Hv in Hb. cbn in Hb. subst v. cbn in Hs. congruence.
  - intros Hv. edestruct (Hst "pickedBy") as (v & v' & Hb & Hs & ->); [in_model|done|done|].
    rewrite Hv in Hb. cbn in Hb. subst v. cbn in Hs. congruence.
  - intros name Hno.
    apply Model_create_inr in Hc as (fields & k & _ & Hp & _).
    by eapply persist_unknown.
Qed.

(** X10. WeeklyTask.create never changes or removes a row that is already
    there: a failed creation leaves the table as it was, a successful one
    adds exactly one row, under a key that was free, which a lookup by that
    key returns. *)
Theorem WeeklyTask_create_keeps_rows rb tbl values now n :
  let '(res, tbl', _) := Model_create rb WeeklyTask tbl values now n in
  (∀ k r0, tbl !! k = Some r0 -> tbl' !! k = Some r0)
  ∧ match res with
    | inl _ => tbl' = tbl
    | inr r =>
        ∃ k, r !! "weekly_task_id" = Some (VStr k)
             ∧ tbl !! k = None
             ∧ Model_findByPk tbl' k = Some r
             ∧ size tbl' = S (size tbl)
             ∧ ∀ k', k' ≠ k -> tbl' !! k' = tbl !! k'
    end.
Proof.
  destruct (Model_create rb WeeklyTask tbl values now n) as [[[e|r] tbl'] n'] eqn:Hc.
  - apply Model_create_inl in Hc as ->. done.
  - apply Model_create_inr in Hc as (fields & k & _ & _ & Hk & Hfresh & ->).
    split.
    + intros k0 r0 Hk0. rewrite lookup_insert_ne; [done|]. intros <-. congruence.
    + exists k. split_and!.
      * by apply WeeklyTask_key.
      * done.
      * apply lookup_insert_eq.
      * by apply map_size_insert_None.
      * intros k' Hne. by rewrite lookup_insert_ne.
Qed.

(** X11. When the payload brings its own weekly_task_id, in the
    lower-case UUID form in which identifiers are kept, no identifier is
    drawn; if the creation succeeds the given id is the key of the new
    row and was the key of no row before; if a row has that key the
    creation is refused and the table stays as it was, so that creating
    the same payload a second time ends in a unique-constraint error. *)
Theorem WeeklyTask_explicit_id rb tbl values now n k :
  values !! "weekly_task_id" = Some (VStr k) ->
  is_uuid k = true ->
  lower k = k ->
  let '(res, tbl', n') := Model_create rb WeeklyTask tbl values now n in
  n' = n
  ∧ (∀ r, res = inr r ->
       r !! "weekly_task_id" = Some (VStr k) ∧ tbl !! k = None ∧ tbl' = <[k := r]> tbl)
  ∧ (is_Some (tbl !! k) -> tbl' = tbl ∧ ∃ e, res = inl e)
  ∧ (∀ r, res = inr r ->
       (Model_create rb WeeklyTask tbl' values now n).1 = (inl UniqueConstraintError, tbl')).
Proof.
  intros Hv Hu _.
  destruct (Model_create rb WeeklyTask tbl values now n) as [[res tbl'] n'] eqn:Hc.
  assert (n' = n ∧ ∀ r, res = inr r ->
            r !! "weekly_task_id" = Some (VStr k) ∧ tbl !! k = None
            ∧ tbl' = <[k := r]> tbl) as [Hn Hok].
  { destruct (build_given_id rb values now n _ Hv) as [rest Hb].
    split.
    - pose proof (Model_create_draws rb WeeklyTask tbl values now n) as Hd.
      by rewrite Hc, Hb in Hd.
    - intros r ->.
      edestruct (Model_create_stored rb tbl values now n r tbl' n' "weekly_task_id")
        as (v0 & v' & Hbv & Hst & Hr); [in_model|done|done|done|].
      rewrite Hv in Hbv. cbn in Hbv. subst v0.
      cbn in Hst. unfold cast in Hst. cbn in Hst. rewrite Hu in Hst. injection Hst as <-.
      apply Model_create_inr in Hc as (fields & k' & _ & _ & Hk & Hfresh & ->).
      apply WeeklyTask_key in Hk. rewrite Hr in Hk. injection Hk as <-. done. }
  split_and!; [done|done| |].
  - intros [r0 Hk]. destruct res as [e|r].
    + apply Model_create_inl in Hc as ->. eauto.
    + destruct (Hok r eq_refl) as (_ & Hnone & _). congruence.
  - intros r ->.
    destruct (Hok r eq_refl) as (Hr & _ & ->).
    pose proof (Model_create_same_payload rb (<[k := r]> tbl) tbl values now n) as Hs.
    rewrite Hc in Hs. destruct Hs as (k' & Hr' & ->).
    rewrite Hr in Hr'. injection Hr' as <-. by rewrite lookup_insert_eq.
Qed.

(** ** The further properties on sample data *)

Lemma work_router_listed : work_routes.router ∈ routers.
Proof. apply list_elem_of_here. Qed.

Lemma sample_list_first :
  first_match work_routes.router (req_method sample_list) ["get"]
    = Some (sample_list_route, []).
Proof. reflexivity. Qed.

Lemma sample_post_trace :
  control (Work work_controller.create)
    ∈ (handle allow_all valid_all answer_ok work_routes.router ["create"]
         sample_post sample_world).1.1.
Proof. apply (bool_decide_unpack _). by vm_compute. Qed.

Lemma sample_Model_create :
  Model_create sample_random WeeklyTask (WeeklyTasks sample_world) sample_values
    (clock sample_world) (draws sample_world)
  = (inr sample_task, WeeklyTasks sample_world_1, draws sample_world_1).
Proof. apply WeeklyTask_create_Model, sample_create. Qed.

Lemma route_chosen_iff_matches_witness :
  work_routes.router ∈ routers
  ∧ (first_match work_routes.router GET ["get"] = Some (sample_list_route, [])
     <-> sample_list_route ∈ work_routes.router ∧ sample_list_route ≠ shadowed
         ∧ route_matches sample_list_route GET ["get"] = Some []).
Proof.
  split; [exact work_router_listed|].
  exact (route_chosen_iff_matches work_routes.router sample_list_route GET ["get"] []
           work_router_listed).
Defined.

Lemma matched_request_outcome_witness :
  work_routes.router ∈ routers
  ∧ first_match work_routes.router (req_method sample_list) ["get"]
      = Some (sample_list_route, [])
  ∧ ∃ perm c,
      route_permission sample_list_route = Some perm
      ∧ route_controller sample_list_route = Some c
      ∧ handle allow_all valid_all answer_ok work_routes.router ["get"] sample_list
          sample_world =
          if allow_all sample_list perm then
            match route_validation sample_list_route with
            | Some v =>
                if valid_all v sample_list
                then (r_stack sample_list_route,
                      Send (answer_ok c [] sample_list sample_world).1,
                      (answer_ok c [] sample_list sample_world).2)
                else ([checkPermission perm; validation v], Send bad_request, sample_world)
            | None => (r_stack sample_list_route,
                       Send (answer_ok c [] sample_list sample_world).1,
                       (answer_ok c [] sample_list sample_world).2)
            end
          else ([checkPermission perm], Send forbidden, sample_world).
Proof.
  split; [exact work_router_listed|]. split; [exact sample_list_first|].
  exact (matched_request_outcome allow_all valid_all answer_ok work_routes.router
           sample_list_route sample_list ["get"] [] sample_world
           work_router_listed sample_list_first).
Defined.

Lemma validation_only_where_registered_witness :
  work_routes.router ∈ routers
  ∧ control (Work work_controller.create)
      ∈ (handle allow_all valid_all answer_ok work_routes.router ["create"]
           sample_post sample_world).1.1
  ∧ (Work work_controller.create ∈ validated ->
       ∃ v, validation v
              ∈ (handle allow_all valid_all answer_ok work_routes.router ["create"]
                   sample_post sample_world).1.1
            ∧ valid_all v sample_post = true)
  ∧ (Work work_controller.create ∉ validated ->
       ∀ v, validation v
              ∉ (handle allow_all valid_all answer_ok work_routes.router ["create"]
                   sample_post sample_world).1.1).
Proof.
  split; [exact work_router_listed|]. split; [exact sample_post_trace|].
  exact (validation_only_where_registered allow_all valid_all answer_ok work_routes.router
           sample_post ["create"] sample_world (Work work_controller.create)
           work_router_listed sample_post_trace).
Defined.

Lemma controllers_run_on_their_verb_witness :
  work_routes.router ∈ routers
  ∧ control (Work work_controller.create)
      ∈ (handle allow_all valid_all answer_ok work_routes.router ["create"]
           sample_post sample_world).1.1
  ∧ Work work_controller.create ∈ served_on (req_method sample_post).
Proof.
  split; [exact work_router_listed|]. split; [exact sample_post_trace|].
  exact (controllers_run_on_their_verb allow_all valid_all answer_ok work_routes.router
           sample_post ["create"] sample_world (Work work_controller.create)
           work_router_listed sample_post_trace).
Defined.

Lemma unrouted_paths_fall_through_witness :
  work_routes.router ∈ routers
  ∧ (length (@nil string) = 0%nat ∨ (2 < length (@nil string))%nat)
  ∧ handle allow_all valid_all answer_ok work_routes.router [] sample_list sample_world
      = ([], Next, sample_world).
Proof.
  assert (length (@nil string) = 0%nat ∨ (2 < length (@nil string))%nat) as H
    by (left; reflexivity).
  split; [exact work_router_listed|]. split; [exact H|].
  exact (unrouted_paths_fall_through allow_all valid_all answer_ok work_routes.router
           sample_list [] sample_world work_router_listed H).
Defined.

Lemma uuid_parameters_reach_controllers_witness :
  is_uuid sample_work_id = true
  ∧ segments ("/get/" +:+ sample_work_id) ≫= first_match work_routes.router GET
     = Some (get "/get/:workId"
               [checkPermission "can_view_work"; control (Work work_controller.findOne)],
             [("workId", sample_work_id)]).
Proof.
  assert (is_uuid sample_work_id = true) as H by reflexivity.
  split; [exact H|].
  exact (proj1 (uuid_parameters_reach_controllers sample_work_id H)).
Defined.

Lemma WeeklyTask_required_attributes_witness :
  "description" ∈ required WeeklyTask
  ∧ (∅ : row) !! "description" = None
  ∧ (Model_create sample_random WeeklyTask ∅ ∅ 1000 0).1 = (inl ValidationError, ∅).
Proof.
  assert ("description" ∈ required WeeklyTask) as H1 by apply list_elem_of_here.
  assert ((∅ : row) !! "description" = None) as H2 by apply lookup_empty.
  split; [exact H1|]. split; [exact H2|].
  exact (proj1 (proj2 (WeeklyTask_required_attributes sample_random ∅ ∅ 1000 0))
           "description" H1 H2).
Defined.

Lemma WeeklyTask_defaults_witness :
  Model_create sample_random WeeklyTask (WeeklyTasks sample_world) sample_values
    (clock sample_world) (draws sample_world)
  = (inr sample_task, WeeklyTasks sample_world_1, draws sample_world_1)
  ∧ (sample_values !! "status" = None -> sample_task !! "status" = Some (VStr "unassigned"))
  ∧ (∀ s, sample_values !! "status" = Some (VStr s) ->
       sample_task !! "status" = Some (VStr s))
  ∧ (sample_values !! "pickedBy" = None -> sample_task !! "pickedBy" = Some VNull)
  ∧ (∀ name, name ∉ WeeklyTask.*1 -> sample_task !! name = None).
Proof.
  split; [exact sample_Model_create|].
  exact (WeeklyTask_defaults sample_random (WeeklyTasks sample_world) sample_values
           (clock sample_world) (draws sample_world) sample_task
           (WeeklyTasks sample_world_1) (draws sample_world_1) sample_Model_create).
Defined.

Lemma WeeklyTask_explicit_id_witness :
  sample_values_with_id !! "weekly_task_id" = Some (VStr sample_user)
  ∧ is_uuid sample_user = true
  ∧ lower sample_user = sample_user
  ∧ let '(res, tbl', n') :=
      Model_create sample_random WeeklyTask ∅ sample_values_with_id 1000 0 in
    n' = 0%nat
    ∧ (∀ r, res = inr r ->
         r !! "weekly_task_id" = Some (VStr sample_user)
         ∧ (∅ : table) !! sample_user = None ∧ tbl' = <[sample_user := r]> ∅)
    ∧ (is_Some ((∅ : table) !! sample_user) -> tbl' = ∅ ∧ ∃ e, res = inl e)
    ∧ (∀ r, res = inr r ->
         (Model_create sample_random WeeklyTask tbl' sample_values_with_id 1000 0).1
           = (inl UniqueConstraintError, tbl')).
Proof.
  assert (sample_values_with_id !! "weekly_task_id" = Some (VStr sample_user)) as H
    by apply lookup_insert_eq.
  assert (is_uuid sample_user = true) as Hu by reflexivity.
  assert (lower sample_user = sample_user) as Hl by reflexivity.
  split_and!; [exact H|exact Hu|exact Hl|].
  exact (WeeklyTask_explicit_id sample_random ∅ sample_values_with_id 1000 0
           sample_user H Hu Hl).
Defined.
